(** * webpage-md-extractor: a shallow embedding of the extraction pipeline

    The development follows the three source files:
    - [config.py]: the constants [OUTPUT_DIR], [MAX_RETRIES], [MAX_WORKERS]
      and the static list [targets];
    - [extractor.py]: [MarkdownExtractor] with [extract_url] (the retry
      loop) and its four stages [_fetch_html], [_clean_html],
      [_convert_to_markdown], [_save_markdown];
    - [main.py]: [main], which submits one [extract_url] call per target to
      a thread pool, collects the outcomes as they complete and prints the
      counts.

    Python values are modelled as follows.  A [str] is a list of Unicode
    code points.  An [int] is a [Z].  The value returned by [extract_url]
    is [True], [False] or [None].  An exception is an instance of
    [Exception], the class both handlers of the program name; the
    system-exiting exceptions ([KeyboardInterrupt], [SystemExit]) are not
    raised by any statement of the program and are outside the model.
    Code that is effectful (logging, sleeping, the browser, the file
    system) runs in a state-and-exception monad over a [world] that
    records the events in the order they happen. *)

From Stdlib Require Import ZArith NArith String Ascii List Lia.
From stdpp Require Import base numbers option list gmap.
Import ListNotations.

Local Open Scope Z_scope.

(** ** Python strings *)

Definition str := list N.

(** A literal of the source, code point by code point. *)
Definition py (s : string) : str :=
  map N_of_ascii (list_ascii_of_string s).

(** [ch.isspace()] as [str.strip] and [str.rstrip] use it: the ASCII
    entries TAB..CR, FS..US and SPACE, then the Unicode white space. *)
Definition isspace (c : N) : bool :=
  ((9 <=? c) && (c <=? 13) || (28 <=? c) && (c <=? 32)
   || (c =? 133) || (c =? 160) || (c =? 5760)
   || (8192 <=? c) && (c <=? 8202)
   || (c =? 8232) || (c =? 8233) || (c =? 8239) || (c =? 8287)
   || (c =? 12288))%N.

Fixpoint lstrip (s : str) : str :=
  match s with
  | [] => []
  | c :: s' => if isspace c then lstrip s' else s
  end.

Fixpoint rstrip (s : str) : str :=
  match s with
  | [] => []
  | c :: s' =>
      match rstrip s' with
      | [] => if isspace c then [] else [c]
      | r => c :: r
      end
  end.

Definition strip (s : str) : str := rstrip (lstrip s).

(** [s.split(sep)] for a one-character separator: never the empty list. *)
Fixpoint split (sep : N) (s : str) : list str :=
  match s with
  | [] => [[]]
  | c :: s' =>
      if bool_decide (c = sep) then [] :: split sep s'
      else match split sep s' with
           | l :: ls => (c :: l) :: ls
           | [] => [[c]]
           end
  end.

(** [sep.join(parts)]. *)
Fixpoint join (sep : str) (parts : list str) : str :=
  match parts with
  | [] => []
  | [p] => p
  | p :: ps => p ++ sep ++ join sep ps
  end.

Definition newline : N := 10%N.
Definition slash : N := 47%N.

(** ** Exceptions and results *)

Inductive exn : Type :=
| ValueError (msg : str)
| FileNotFoundError
| NotADirectoryError
| IsADirectoryError
| PermissionError
| OSError (msg : str)
| WebDriverException (msg : str)
| TimeoutException
| OtherException (msg : str).

(** [isinstance(e, OSError)]; [IOError] is an alias of [OSError]. *)
Definition is_IOError (e : exn) : bool :=
  match e with
  | FileNotFoundError | NotADirectoryError | IsADirectoryError
  | PermissionError | OSError _ => true
  | _ => false
  end.

Inductive result (A : Type) : Type :=
| Ok (a : A)
| Raise (e : exn).
Arguments Ok {A} a.
Arguments Raise {A} e.

(** ** pathlib and the file system *)

(** A [PurePosixPath]: whether it starts at the root, and its components
    (empty components and [.] are dropped when the path is parsed, [..]
    is kept). *)
Record Path : Type := mkPath { anchored : bool; parts : list str }.

Definition keep_part (p : str) : bool :=
  negb (bool_decide (p = [])) && negb (bool_decide (p = py ".")).

Definition parse_path (s : str) : Path :=
  {| anchored := match s with c :: _ => bool_decide (c = slash) | [] => false end;
     parts := List.filter keep_part (split slash s) |}.

(** [a / b]: an absolute right operand replaces the left one. *)
Definition joinpath (a : Path) (b : str) : Path :=
  let pb := parse_path b in
  if anchored pb then pb
  else {| anchored := anchored a; parts := parts a ++ parts pb |}.

(** A file system without symbolic links.  Directories and files are named
    by their components from the root. *)
Record filesystem : Type := mkFs {
  cwd : list str;
  dirs : gset (list str);
  files : gmap (list str) str
}.

Definition parent (d : list str) : list str := removelast d.

(** Resolution of the directory components of a path, from [cur]. *)
Fixpoint walk (fs : filesystem) (cur : list str) (comps : list str)
  : result (list str) :=
  match comps with
  | [] => Ok cur
  | c :: rest =>
      if bool_decide (c = py "..") then walk fs (parent cur) rest
      else
        let nxt := cur ++ [c] in
        if bool_decide (nxt ∈ dirs fs) then walk fs nxt rest
        else if bool_decide (is_Some (files fs !! nxt)) then Raise NotADirectoryError
        else Raise FileNotFoundError
  end.

Definition split_last {A} (l : list A) : option (list A * A) :=
  match rev l with
  | [] => None
  | x :: r => Some (rev r, x)
  end.

(** Where [open(path, "w")] lands, or the [OSError] of the resolution. *)
Definition resolve (fs : filesystem) (p : Path) : result (list str) :=
  let start := if anchored p then [] else cwd fs in
  match split_last (parts p) with
  | None => Raise IsADirectoryError
  | Some (dirparts, name) =>
      match walk fs start dirparts with
      | Raise e => Raise e
      | Ok d =>
          if bool_decide (name = py "..") then Raise IsADirectoryError
          else if bool_decide (d ++ [name] ∈ dirs fs) then Raise IsADirectoryError
          else Ok (d ++ [name])
      end
  end.

(** ** The world: events in order, and the disk *)

Inductive level : Type := DEBUG | INFO | ERROR.

(** The records the program hands to [logging], by call site. *)
Inductive log_record : Type :=
| Fetching (url : str)
| Fetched (bytes : Z) (url : str)
| FetchFailed (url : str) (e : exn)
| Cleaned (bytes : Z)
| Converted (chars : Z)
| Saved (path : Path)
| Processed (title : str)
| AttemptFailed (number : Z) (out_of : Z) (title : str) (e : exn)
| RetriesExhausted (title : str)
| ProcessingUrls (count : Z) (workers : Z)
| ExceptionFor (title : str) (e : exn).

(** The lines [main] prints at the end. *)
Inductive print_line : Type :=
| Rule
| ProcessingComplete
| SuccessLine (success_count : Z) (total : Z)
| FailedLine (failure_count : Z) (total : Z).

(** The two call sites of [time.sleep]. *)
Inductive sleep_site : Type := Settle | Backoff.

Inductive event : Type :=
| Log (lvl : level) (r : log_record)
| Sleep (site : sleep_site) (seconds : Z)
| BrowserLaunched (url : str)
| BrowserQuit
| Stdout (line : print_line).

Record world : Type := mkWorld {
  events : list event;
  disk : filesystem
}.

(** ** The monad of effectful code *)

Definition M (A : Type) : Type := world -> result A * world.

Definition ret {A} (a : A) : M A := fun w => (Ok a, w).

Definition raise {A} (e : exn) : M A := fun w => (Raise e, w).

Definition bind {A B} (c : M A) (k : A -> M B) : M B :=
  fun w =>
    match c w with
    | (Ok a, w') => k a w'
    | (Raise e, w') => (Raise e, w')
    end.

Notation "x <- c ;; k" := (bind c (fun x => k))
  (at level 100, c at next level, right associativity).
Notation "c ;;; k" := (bind c (fun _ => k))
  (at level 100, right associativity).

(** [try: body except Exception as e: handler(e)]. *)
Definition try_except {A} (body : M A) (handler : exn -> M A) : M A :=
  fun w =>
    match body w with
    | (Ok a, w') => (Ok a, w')
    | (Raise e, w') => handler e w'
    end.

(** [try: body finally: final]: an exception of [final] replaces the
    outcome of [body]. *)
Definition try_finally {A} (body : M A) (final : M unit) : M A :=
  fun w =>
    match body w with
    | (r, w') =>
        match final w' with
        | (Ok _, w'') => (r, w'')
        | (Raise e, w'') => (Raise e, w'')
        end
    end.

Definition record_event (ev : event) (w : world) : world :=
  {| events := events w ++ [ev]; disk := disk w |}.

Definition emit (ev : event) : M unit :=
  fun w => (Ok tt, record_event ev w).

Definition logging (lvl : level) (r : log_record) : M unit := emit (Log lvl r).

Definition time_sleep (site : sleep_site) (seconds : Z) : M unit :=
  emit (Sleep site seconds).

Definition len {A} (l : list A) : Z := Z.of_nat (length l).

(** ** config.py *)

Record TargetUrl : Type := mkTarget { url : str; title : str }.

Definition targets : list TargetUrl :=
  [ {| url := py "https://www.facebook.com/business/help/890714097648074?id=725943027795860";
       title := py "fb_feed_specs" |};
    {| url := py "https://www.facebook.com/business/help/1898524300466211?id=725943027795860";
       title := py "fb_feed_troubleshooting" |} ].

Definition OUTPUT_DIR : str := py "./output".
Definition MAX_RETRIES : Z := 3.
Definition PAGE_LOAD_TIMEOUT : Z := 30.
Definition MAX_WORKERS : Z := 3.

(** ** The document tree of BeautifulSoup *)

(** The value of an attribute: a string, or for [class] and the other
    multi-valued attributes the list of its tokens. *)
Inductive attr_value : Type :=
| AttrStr (v : str)
| AttrList (vs : list str).

#[warnings="-register-all"]
Inductive node : Type :=
| NavigableString (text : str)
| Tag (name : str) (attrs : list (str * attr_value)) (contents : list node).

Fixpoint get_attr (attrs : list (str * attr_value)) (key : str) : option attr_value :=
  match attrs with
  | [] => None
  | (k, v) :: rest => if bool_decide (k = key) then Some v else get_attr rest key
  end.

Definition space : str := py " ".

(** The white space that separates class names in a selector match. *)
Definition is_html_space (c : N) : bool :=
  ((c =? 32) || (c =? 9) || (c =? 10) || (c =? 12) || (c =? 13))%N.

Fixpoint tokens_aux (cur : str) (s : str) : list str :=
  match s with
  | [] => match cur with [] => [] | _ => [rev cur] end
  | c :: s' =>
      if is_html_space c
      then match cur with [] => tokens_aux [] s' | _ => rev cur :: tokens_aux [] s' end
      else tokens_aux (c :: cur) s'
  end.

Definition tokens (s : str) : list str := tokens_aux [] s.

(** The selectors of [unwanted_selectors], parsed. *)
Inductive selector : Type :=
| ByType (name : str)
| ByClass (cls : str)
| ById (id : str)
| ByAttr (key : str) (value : str).

Definition attr_text (v : attr_value) : str :=
  match v with
  | AttrStr s => s
  | AttrList vs => join space vs
  end.

(** Does the element match the selector ([soup.select])? *)
Definition select_matches (sel : selector) (n : node) : bool :=
  match n with
  | NavigableString _ => false
  | Tag name attrs _ =>
      match sel with
      | ByType t => bool_decide (name = t)
      | ByClass c =>
          match get_attr attrs (py "class") with
          | Some (AttrList vs) => bool_decide (c ∈ vs)
          | Some (AttrStr s) => bool_decide (c ∈ tokens s)
          | None => false
          end
      | ById i =>
          match get_attr attrs (py "id") with
          | Some v => bool_decide (attr_text v = i)
          | None => false
          end
      | ByAttr k want =>
          match get_attr attrs k with
          | Some v => bool_decide (attr_text v = want)
          | None => false
          end
      end
  end.

(** Does an attribute value satisfy a keyword filter of [find]?  For a
    multi-valued attribute any token may match, or all of them joined. *)
Definition attr_matches (v : attr_value) (want : str) : bool :=
  match v with
  | AttrStr s => bool_decide (s = want)
  | AttrList vs => bool_decide (want ∈ vs) || bool_decide (join space vs = want)
  end.

(** The filter of [find(name, key=want, ...)]. *)
Definition find_matches (name : str) (kw : list (str * str)) (n : node) : bool :=
  match n with
  | NavigableString _ => false
  | Tag nm attrs _ =>
      bool_decide (nm = name)
      && forallb (fun '(k, want) =>
                    match get_attr attrs k with
                    | Some v => attr_matches v want
                    | None => false
                    end) kw
  end.

(** The first element, in document order, among [n] and its descendants. *)
Fixpoint first_in (p : node -> bool) (n : node) : option node :=
  match n with
  | NavigableString _ => None
  | Tag _ _ cs =>
      if p n then Some n
      else (fix go (l : list node) : option node :=
              match l with
              | [] => None
              | c :: l' =>
                  match first_in p c with
                  | Some r => Some r
                  | None => go l'
                  end
              end) cs
  end.

Fixpoint first_of (p : node -> bool) (l : list node) : option node :=
  match l with
  | [] => None
  | c :: l' =>
      match first_in p c with
      | Some r => Some r
      | None => first_of p l'
      end
  end.

(** [soup.find(...)]: the descendants of [soup], not [soup] itself. *)
Definition find (name : str) (kw : list (str * str)) (soup : node) : option node :=
  match soup with
  | NavigableString _ => None
  | Tag _ _ cs => first_of (find_matches name kw) cs
  end.

(** [for element in soup.select(selector): element.decompose()]: every
    matching descendant leaves the tree with its subtree. *)
Fixpoint decompose_all (sel : selector) (n : node) : node :=
  match n with
  | NavigableString _ => n
  | Tag nm attrs cs =>
      Tag nm attrs
        ((fix go (l : list node) : list node :=
            match l with
            | [] => []
            | c :: l' =>
                if select_matches sel c then go l'
                else decompose_all sel c :: go l'
            end) cs)
  end.

(** [a or b] on values that are an element (always true) or [None]. *)
Definition py_or (a b : option node) : option node :=
  match a with
  | Some _ => a
  | None => b
  end.

(** ** What the outside does during one attempt *)

(** One browser session of [_fetch_html], step by step: creating the
    driver, loading the page until it is ready, reading [page_source],
    and [driver.quit()].  [None] means the step raises nothing. *)
Record session : Type := mkSession {
  launch : option exn;
  navigate : option exn;
  page_source : result str;
  quit : option exn
}.

(** The conditions that hold while one attempt runs: how the browser
    behaves on a URL, and whether the operating system refuses the open or
    the write of the output file (permissions, a full disk, ...). *)
Record conditions : Type := mkConditions {
  browser : str -> session;
  open_fault : option exn;
  write_fault : option exn
}.

(** The Python value [extract_url] returns: [True], [False], or the
    [None] of a function that ends without [return]. *)
Inductive pyval : Type := PyTrue | PyFalse | PyNone.

(** [range(n)]. *)
Definition range (n : Z) : list Z := map Z.of_nat (seq 0 (Z.to_nat n)).

(** ** extractor.py *)

Section MarkdownExtractor.

(** The libraries the extractor calls, as total functions of their
    arguments: the parser [BeautifulSoup(html, "lxml")], [str(element)],
    and [markdownify] with the options the source passes. *)
Variable BeautifulSoup : str -> node.
Variable str_of : node -> str.
Variable md : str -> str.

(** The loop bound, [config.MAX_RETRIES]. *)
Variable max_retries : Z.

Definition raise_if (o : option exn) : M unit :=
  match o with
  | Some e => raise e
  | None => ret tt
  end.

Definition lift {A} (r : result A) : M A :=
  match r with
  | Ok a => ret a
  | Raise e => raise e
  end.

Definition driver_quit (s : session) : M unit :=
  emit BrowserQuit ;;; raise_if (quit s).

(** [driver.set_page_load_timeout], which only stores a number, is taken
    not to raise; [navigate] stands for [driver.get] and the wait for
    [document.readyState]. *)
Definition _fetch_html (c : conditions) (url : str) : M (option str) :=
  let s := browser c url in
  match launch s with
  | Some e =>
      (* the driver was never created: nothing to quit *)
      logging ERROR (FetchFailed url e) ;;; ret None
  | None =>
      emit (BrowserLaunched url) ;;;
      try_finally
        (try_except
           (logging INFO (Fetching url) ;;;
            raise_if (navigate s) ;;;
            time_sleep Settle 2 ;;;
            html <- lift (page_source s) ;;
            logging DEBUG (Fetched (len html) url) ;;;
            ret (Some html))
           (fun e => logging ERROR (FetchFailed url e) ;;; ret None))
        (driver_quit s)
  end.

Definition unwanted_selectors : list selector :=
  [ ByType (py "nav"); ByType (py "footer"); ByType (py "header");
    ByType (py "aside");
    ByType (py "script"); ByType (py "style"); ByType (py "iframe");
    ByType (py "noscript");
    ByClass (py "ad"); ByClass (py "advertisement"); ById (py "ads");
    ByAttr (py "role") (py "navigation"); ByAttr (py "role") (py "banner");
    ByAttr (py "role") (py "complementary");
    ByAttr (py "aria-label") (py "Advertisement") ].

(** The tree once the loop over [unwanted_selectors] has run. *)
Definition remove_unwanted (soup : node) : node :=
  fold_left (fun s sel => decompose_all sel s) unwanted_selectors soup.

(** The expression bound to [main_content]. *)
Definition main_content (soup : node) : option node :=
  py_or (find (py "main") [] soup)
    (py_or (find (py "article") [] soup)
       (py_or (find (py "div") [(py "class", py "content")] soup)
          (py_or (find (py "div") [(py "id", py "content")] soup)
             (find (py "div") [(py "role", py "main")] soup)))).

(** [soup.body]. *)
Definition body (soup : node) : option node := find (py "body") [] soup.

(** The element or document whose text [_clean_html] returns. *)
Definition cleaned_region (html : str) : node :=
  let soup := remove_unwanted (BeautifulSoup html) in
  match main_content soup with
  | Some m => m
  | None =>
      match body soup with
      | Some b => b
      | None => soup
      end
  end.

Definition _clean_html (html : str) : M str :=
  let result := str_of (cleaned_region html) in
  logging DEBUG (Cleaned (len result)) ;;;
  ret result.

Definition _convert_to_markdown (html : str) : M str :=
  let markdown := md html in
  let lines := map rstrip (split newline markdown) in
  let cleaned := strip (join [newline] lines) in
  logging DEBUG (Converted (len cleaned)) ;;;
  ret cleaned.

(** [aiofiles.open(output_path, "w")]: the file is created or truncated
    where the path resolves. *)
Definition aiofiles_open (c : conditions) (p : Path) : M (list str) :=
  fun w =>
    match open_fault c with
    | Some e => (Raise e, w)
    | None =>
        match resolve (disk w) p with
        | Raise e => (Raise e, w)
        | Ok target =>
            (Ok target,
             {| events := events w;
                disk := {| cwd := cwd (disk w); dirs := dirs (disk w);
                           files := <[target := []]> (files (disk w)) |} |})
        end
    end.

Definition file_write (c : conditions) (target : list str) (content : str) : M unit :=
  fun w =>
    match write_fault c with
    | Some e => (Raise e, w)
    | None =>
        (Ok tt,
         {| events := events w;
            disk := {| cwd := cwd (disk w); dirs := dirs (disk w);
                       files := <[target := content]> (files (disk w)) |} |})
    end.

Definition output_path (title : str) : Path :=
  joinpath (parse_path OUTPUT_DIR) (title ++ py ".md").

Definition _save_markdown (c : conditions) (title : str) (content : str) : M unit :=
  f <- aiofiles_open c (output_path title) ;;
  file_write c f content ;;;
  logging INFO (Saved (output_path title)).

(** The statements inside [try:], up to the write of the file.  [not
    html] holds of [None] and of the empty string. *)
Definition attempt_body (c : conditions) (url title : str) : M unit :=
  html <- _fetch_html c url ;;
  match html with
  | None | Some [] => raise (ValueError (py "Failed to fetch HTML"))
  | Some h =>
      cleaned <- _clean_html h ;;
      markdown <- _convert_to_markdown cleaned ;;
      _save_markdown c title markdown
  end.

(** The [for] loop of [extract_url] over the values still to come. *)
Fixpoint retry_loop (env : Z -> conditions) (url title : str)
         (attempts : list Z) (w : world) : pyval * world :=
  match attempts with
  | [] => (PyNone, w)
  | attempt :: rest =>
      match attempt_body (env attempt) url title w with
      | (Ok _, w1) =>
          (PyTrue, record_event (Log INFO (Processed title)) w1)
      | (Raise e, w1) =>
          let w2 :=
            record_event
              (Log ERROR (AttemptFailed (attempt + 1) max_retries title e)) w1 in
          if attempt <? max_retries - 1 then
            retry_loop env url title rest
              (record_event (Sleep Backoff (2 ^ attempt)) w2)
          else
            (PyFalse, record_event (Log ERROR (RetriesExhausted title)) w2)
      end
  end.

Definition extract_url (env : Z -> conditions) (url title : str) (w : world)
  : pyval * world :=
  retry_loop env url title (range max_retries) w.

End MarkdownExtractor.

(** ** main.py *)

(** [as_completed]: the futures in the order in which they finish.  The
    order is decided by the time at which each one is done, which the
    scheduler and the pages decide, not the program. *)
Fixpoint insert_by (t : nat -> nat) (x : nat) (l : list nat) : list nat :=
  match l with
  | [] => [x]
  | y :: l' => if (t x <=? t y)%nat then x :: l else y :: insert_by t x l'
  end.

Fixpoint as_completed (t : nat -> nat) (fs : list nat) : list nat :=
  match fs with
  | [] => []
  | f :: fs' => insert_by t f (as_completed t fs')
  end.

(** The numbers [main] reports. *)
Record report : Type := mkReport {
  results : list pyval;
  success_count : Z;
  failure_count : Z
}.

(** [len(results)], the total both printed lines show. *)
Definition total (r : report) : Z := len (results r).

Definition is_True (v : pyval) : bool :=
  match v with
  | PyTrue => true
  | _ => false
  end.

Section Main.

(** What the future of the call submitted for the [i]-th target holds
    once it is done: the value [extract_url] returned, or the exception
    it raised. *)
Variable outcome : nat -> TargetUrl -> result pyval.

(** When the [i]-th future is done. *)
Variable done_at : nat -> nat.

(** [future_to_url]: one fresh future per target, numbered in the order
    of submission. *)
Definition future_to_url (items : list TargetUrl) : gmap nat TargetUrl :=
  map_seq 0 items.

Definition dict_keys (d : gmap nat TargetUrl) : list nat :=
  (map_to_list d).*1.

(** [d[k]], a [KeyError] when the key is missing. *)
Definition dict_get (d : gmap nat TargetUrl) (k : nat) : M TargetUrl :=
  match d !! k with
  | Some item => ret item
  | None => raise (OtherException (py "KeyError"))
  end.

(** One turn of the [for future in as_completed(...)] loop. *)
Definition collect (d : gmap nat TargetUrl) (acc : list pyval) (future : nat)
  : M (list pyval) :=
  item <- dict_get d future ;;
  try_except
    (success <- lift (outcome future item) ;;
     ret (acc ++ [success]))
    (fun e =>
       logging ERROR (ExceptionFor (title item) e) ;;;
       ret (acc ++ [PyFalse])).

Fixpoint for_each (d : gmap nat TargetUrl) (acc : list pyval) (fs : list nat)
  : M (list pyval) :=
  match fs with
  | [] => ret acc
  | f :: fs' => acc' <- collect d acc f ;; for_each d acc' fs'
  end.

(** [main] from the creation of the pool to the printed summary. *)
Definition main (items : list TargetUrl) : M report :=
  let d := future_to_url items in
  logging INFO (ProcessingUrls (len items) MAX_WORKERS) ;;;
  results <- for_each d [] (as_completed done_at (dict_keys d)) ;;
  let success_count := len (List.filter is_True results) in
  let failure_count := len results - success_count in
  emit (Stdout Rule) ;;;
  emit (Stdout ProcessingComplete) ;;;
  emit (Stdout (SuccessLine success_count (len results))) ;;;
  emit (Stdout (FailedLine failure_count (len results))) ;;;
  emit (Stdout Rule) ;;;
  ret {| results := results;
         success_count := success_count;
         failure_count := failure_count |}.

End Main.

(** ** What a run lets one observe *)

(** The retry schedule read off the events: every attempt ends with one
    record, [Processed] when it succeeded and [AttemptFailed] when it did
    not, and every back-off is one [time.sleep] of the retry loop. *)
Inductive step : Type :=
| Attempt (succeeded : bool)
| Wait (seconds : Z).

Definition schedule_of (ev : event) : list step :=
  match ev with
  | Log _ (Processed _) => [Attempt true]
  | Log _ (AttemptFailed _ _ _ _) => [Attempt false]
  | Sleep Backoff d => [Wait d]
  | _ => []
  end.

Definition schedule (evs : list event) : list step := flat_map schedule_of evs.

Definition is_attempt (s : step) : bool :=
  match s with
  | Attempt _ => true
  | Wait _ => false
  end.

Definition attempts_made (evs : list event) : Z :=
  len (List.filter is_attempt (schedule evs)).

Definition backoff_sleeps (evs : list event) : list Z :=
  flat_map (fun s => match s with Wait d => [d] | Attempt _ => [] end) (schedule evs).

(** [j] failed attempts, the first one numbered [a] by the loop, each
    followed by its back-off. *)
Fixpoint failed_rounds (a : Z) (j : nat) : list step :=
  match j with
  | O => []
  | S j' => Attempt false :: Wait (2 ^ a) :: failed_rounds (a + 1) j'
  end.

(** The fetch stage hands a non-empty page to the next stage. *)
Definition fetch_ok (s : session) : bool :=
  match launch s, navigate s, page_source s, quit s with
  | None, None, Ok (_ :: _), None => true
  | _, _, _, _ => false
  end.

(** The persist stage writes the file. *)
Definition persist_ok (c : conditions) (title : str) (fs : filesystem) : bool :=
  match open_fault c, resolve fs (output_path title), write_fault c with
  | None, Ok _, None => true
  | _, _, _ => false
  end.

(** Every stage of one attempt succeeds (the sanitizer and the
    transformer cannot fail). *)
Definition stages_succeed (c : conditions) (url title : str) (fs : filesystem) : bool :=
  fetch_ok (browser c url) && persist_ok c title fs.

Definition ok_part {A} (r : result A) : option A :=
  match r with
  | Ok a => Some a
  | Raise _ => None
  end.

Definition is_ok {A} (r : result A) : bool :=
  match r with
  | Ok _ => true
  | Raise _ => false
  end.

Definition is_bool (v : pyval) : bool :=
  match v with
  | PyTrue | PyFalse => true
  | PyNone => false
  end.

(** The directory tree of the disk, which no stage changes. *)
Definition same_tree (fs fs' : filesystem) : Prop :=
  cwd fs' = cwd fs /\ dirs fs' = dirs fs.

(** A computation step that adds nothing to the retry schedule and leaves
    the directory tree alone. *)
Definition extends (w w' : world) : Prop :=
  (exists evs, events w' = events w ++ evs /\ schedule evs = [])
  /\ same_tree (disk w) (disk w').

Definition quiet {A} (c : M A) : Prop :=
  forall w, extends w (snd (c w)).

(** ** The sanitizer in the words of its description *)

(** The element and everything below it, in document order. *)
Fixpoint subtree (n : node) : list node :=
  n :: match n with
       | NavigableString _ => []
       | Tag _ _ cs => flat_map subtree cs
       end.

Definition descendants (n : node) : list node :=
  match n with
  | NavigableString _ => []
  | Tag _ _ cs => flat_map subtree cs
  end.

(** The first element of the document, in document order, that the
    filter accepts. *)
Definition first_element (p : node -> bool) (soup : node) : option node :=
  head (List.filter p (descendants soup)).

(** The candidates for the primary content region, in priority order: a
    [main] element, an [article] element, a [div] of class [content], a
    [div] of id [content], a [div] of ARIA role [main]. *)
Definition content_candidates : list (node -> bool) :=
  [ find_matches (py "main") [];
    find_matches (py "article") [];
    find_matches (py "div") [(py "class", py "content")];
    find_matches (py "div") [(py "id", py "content")];
    find_matches (py "div") [(py "role", py "main")] ].

(** First match wins. *)
Fixpoint first_match (cands : list (node -> bool)) (soup : node) : option node :=
  match cands with
  | [] => None
  | p :: ps =>
      match first_element p soup with
      | Some r => Some r
      | None => first_match ps soup
      end
  end.

(** The region by ordered fallback: a candidate, else the body, else the
    whole document. *)
Definition primary_region (soup : node) : node :=
  match first_match content_candidates soup with
  | Some r => r
  | None =>
      match first_element (find_matches (py "body") []) soup with
      | Some b => b
      | None => soup
      end
  end.

(** ** Where the output root is *)

(** The directory a path names. *)
Definition resolve_dir (fs : filesystem) (p : Path) : result (list str) :=
  walk fs (if anchored p then [] else cwd fs) (parts p).

Definition output_root (fs : filesystem) : result (list str) :=
  resolve_dir fs (parse_path OUTPUT_DIR).

(** Does the location lie under the output root? *)
Definition inside_root (fs : filesystem) (target : list str) : bool :=
  match output_root fs with
  | Ok root => bool_decide (root `prefix_of` target)
  | Raise _ => false
  end.

(** ** The pool running the extractor *)

(** The future of the [i]-th call holds what [extract_url] returns for the
    [i]-th target, under the conditions [envs i] and from the world
    [worlds i] in which that call runs. *)
Definition pipeline_outcome (BeautifulSoup : str -> node) (str_of : node -> str)
    (md : str -> str) (max_retries : Z)
    (envs : nat -> Z -> conditions) (worlds : nat -> world)
  : nat -> TargetUrl -> result pyval :=
  fun i item =>
    Ok (fst (extract_url BeautifulSoup str_of md max_retries
               (envs i) (url item) (title item) (worlds i))).

(** What [main] appends to [results] for the future [k] of the dictionary
    [d]. *)
Definition recorded_at (outcome : nat -> TargetUrl -> result pyval)
    (d : gmap nat TargetUrl) (k : nat) : pyval :=
  match d !! k with
  | Some item =>
      match outcome k item with
      | Ok v => v
      | Raise _ => PyFalse
      end
  | None => PyNone
  end.

(** What [main] appends to [results] for the [i]-th target. *)
Definition recorded (outcome : nat -> TargetUrl -> result pyval)
    (i : nat) (item : TargetUrl) : pyval :=
  match outcome i item with
  | Ok v => v
  | Raise _ => PyFalse
  end.

(** ** Concrete worlds *)

(** A disk with the output directory in place under the working
    directory. *)
Definition example_disk : filesystem :=
  {| cwd := [py "home"];
     dirs := {[ [py "home"]; [py "home"; py "output"] ]};
     files := ∅ |}.

Definition example_world : world := {| events := []; disk := example_disk |}.

(** A session that delivers the page, and one whose navigation fails. *)
Definition page_session (html : str) : session :=
  {| launch := None; navigate := None; page_source := Ok html; quit := None |}.

Definition dead_session (e : exn) : session :=
  {| launch := None; navigate := Some e; page_source := Ok []; quit := None |}.

(** The browser serves every URL and the disk accepts every write. *)
Definition calm : conditions :=
  {| browser := fun _ => page_session (py "<main>text</main>");
     open_fault := None; write_fault := None |}.

(** The browser times out on every URL. *)
Definition offline : conditions :=
  {| browser := fun _ => dead_session TimeoutException;
     open_fault := None; write_fault := None |}.

(** The browser rejects a URL that is not well formed, each time it is
    asked. *)
Definition rejecting : conditions :=
  {| browser := fun _ => dead_session (WebDriverException (py "invalid argument"));
     open_fault := None; write_fault := None |}.

(** A page with a navigation bar that holds a [main] of its own, a [div]
    of class [content], and after it the [main] element with a script in
    it. *)
Definition sample_page : node :=
  Tag (py "[document]") []
    [Tag (py "html") []
       [Tag (py "body") []
          [Tag (py "nav") [] [Tag (py "main") [] [NavigableString (py "menu")]];
           Tag (py "div") [(py "class", AttrList [py "content"; py "wide"])]
             [NavigableString (py "teaser")];
           Tag (py "main") []
             [Tag (py "script") [] [NavigableString (py "track()")];
              NavigableString (py "article text")]]]].

(** Stand-ins for the libraries where a concrete run needs them. *)
Definition flat_parser (html : str) : node :=
  Tag (py "[document]") [] [NavigableString html].

Definition flat_str_of (n : node) : str :=
  match n with
  | NavigableString s => s
  | Tag _ _ [NavigableString s] => s
  | _ => []
  end.

Definition identity_md (html : str) : str := html.

(** The first attempt meets a browser that times out, the later ones a
    browser that serves the page. *)
Definition recovering (attempt : Z) : conditions :=
  if attempt <? 1 then offline else calm.

(** ** Readings of a run used by the further facts *)

(** [True] or [False]. *)
Definition py_bool (b : bool) : pyval := if b then PyTrue else PyFalse.

(** The seconds slept in all. *)
Definition total_seconds (l : list Z) : Z := fold_right Z.add 0 l.

(** The lines of [_convert_to_markdown] after the call of the converter:
    [rstrip] on every line, then [strip] on the whole. *)
Definition tidy_lines (markdown : str) : str :=
  strip (join [newline] (map rstrip (split newline markdown))).

(** The text one attempt writes for the page [html]. *)
Definition page_markdown (BeautifulSoup : str -> node) (str_of : node -> str)
    (md : str -> str) (html : str) : str :=
  tidy_lines (md (str_of (cleaned_region BeautifulSoup html))).

(** The characters of a text that are not white space, in order. *)
Definition visible (s : str) : str := List.filter (fun c => negb (isspace c)) s.

(** Browser sessions in a list of events are opened and closed in turn:
    no launch while a session is open, no quit without one, none open at
    the end.  [open] tells whether a session is open at the start. *)
Fixpoint sessions_closed (open : bool) (evs : list event) : bool :=
  match evs with
  | [] => negb open
  | BrowserLaunched _ :: evs' => negb open && sessions_closed true evs'
  | BrowserQuit :: evs' => open && sessions_closed false evs'
  | _ :: evs' => sessions_closed open evs'
  end.

(** A title without a slash. *)
Definition plain (t : str) : Prop := slash ∉ t.

(** The file name [_save_markdown] derives from a title. *)
Definition file_name (t : str) : str := t ++ py ".md".

(** A computation adds events that satisfy [P] to those already there. *)
Definition adds {A} (P : list event -> Prop) (c : M A) : Prop :=
  forall w, exists evs, events (snd (c w)) = events w ++ evs /\ P evs.

(** From [fs] to [fs'] the directory tree is the same and no file changed
    except, possibly, the one at [target]. *)
Definition touches (target : option (list str)) (fs fs' : filesystem) : Prop :=
  same_tree fs fs'
  /\ forall p, target <> Some p -> files fs' !! p = files fs !! p.

(** The titles [main] reports an exception for, in the order of the
    reports. *)
Definition exception_titles (evs : list event) : list str :=
  flat_map (fun ev => match ev with
                      | Log ERROR (ExceptionFor t _) => [t]
                      | _ => []
                      end) evs.

(** The title of the [i]-th target when its future raised. *)
Definition raised_title (outcome : nat -> TargetUrl -> result pyval)
    (i : nat) (item : TargetUrl) : list str :=
  match outcome i item with
  | Raise _ => [title item]
  | Ok _ => []
  end.

Definition raised_at (outcome : nat -> TargetUrl -> result pyval)
    (d : gmap nat TargetUrl) (k : nat) : list str :=
  match d !! k with
  | Some item => raised_title outcome k item
  | None => []
  end.

(** [Path(p).mkdir(exist_ok=True)], the call with which [main] prepares
    the output directory: nothing happens when the directory is there,
    it is created when its parent is there and the name is free, and the
    [OSError] of the system is raised otherwise (a missing parent, a
    parent or a path that is a file). *)
Definition mkdir_exist_ok (p : Path) : M unit :=
  fun w =>
    let fs := disk w in
    match split_last (parts p) with
    | None => (Ok tt, w)
    | Some (dirparts, name) =>
        match walk fs (if anchored p then [] else cwd fs) dirparts with
        | Raise e => (Raise e, w)
        | Ok d =>
            if bool_decide (name = py "..") then (Ok tt, w)
            else if bool_decide (d ++ [name] ∈ dirs fs) then (Ok tt, w)
            else if bool_decide (is_Some (files fs !! (d ++ [name])))
                 then (Raise (OSError (py "FileExistsError")), w)
                 else (Ok tt,
                       {| events := events w;
                          disk := {| cwd := cwd fs;
                                     dirs := {[ d ++ [name] ]} ∪ dirs fs;
                                     files := files fs |} |})
        end
    end.

(** [Path(OUTPUT_DIR).mkdir(exist_ok=True)]. *)
Definition make_output_dir : M unit := mkdir_exist_ok (parse_path OUTPUT_DIR).

(** * Facts about the program *)

(** ** Steps that leave the retry schedule alone *)

Lemma schedule_app (l1 l2 : list event) :
  schedule (l1 ++ l2) = schedule l1 ++ schedule l2.
Proof. unfold schedule. apply flat_map_app. Qed.

Lemma same_tree_refl fs : same_tree fs fs.
Proof. split; reflexivity. Qed.

Lemma same_tree_trans fs1 fs2 fs3 :
  same_tree fs1 fs2 -> same_tree fs2 fs3 -> same_tree fs1 fs3.
Proof. intros [H1 H2] [H3 H4]. split; congruence. Qed.

Lemma extends_refl w : extends w w.
Proof.
  split; [| apply same_tree_refl].
  exists []. split; [by rewrite app_nil_r | reflexivity].
Qed.

Lemma extends_trans w1 w2 w3 : extends w1 w2 -> extends w2 w3 -> extends w1 w3.
Proof.
  intros [(e1 & He1 & Hs1) Ht1] [(e2 & He2 & Hs2) Ht2].
  split; [| eapply same_tree_trans; eassumption].
  exists (e1 ++ e2). split.
  - rewrite He2, He1. by rewrite app_assoc.
  - rewrite schedule_app, Hs1, Hs2. reflexivity.
Qed.

Lemma extends_record ev w :
  schedule_of ev = [] -> extends w (record_event ev w).
Proof.
  intros H. split; [| apply same_tree_refl].
  exists [ev]. split; [reflexivity |].
  unfold schedule. simpl. rewrite H. reflexivity.
Qed.

Lemma quiet_ret {A} (a : A) : quiet (ret a).
Proof. intros w. apply extends_refl. Qed.

Lemma quiet_raise {A} e : quiet (@raise A e).
Proof. intros w. apply extends_refl. Qed.

Lemma quiet_bind {A B} (c : M A) (k : A -> M B) :
  quiet c -> (forall a, quiet (k a)) -> quiet (bind c k).
Proof.
  intros Hc Hk w. unfold bind. specialize (Hc w).
  destruct (c w) as [[a | e] w1]; simpl in *.
  - eapply extends_trans; [exact Hc | apply Hk].
  - exact Hc.
Qed.

Lemma quiet_try_except {A} (body : M A) handler :
  quiet body -> (forall e, quiet (handler e)) -> quiet (try_except body handler).
Proof.
  intros Hb Hh w. unfold try_except. specialize (Hb w).
  destruct (body w) as [[a | e] w1]; simpl in *.
  - exact Hb.
  - eapply extends_trans; [exact Hb | apply Hh].
Qed.

Lemma quiet_try_finally {A} (body : M A) final :
  quiet body -> quiet final -> quiet (try_finally body final).
Proof.
  intros Hb Hf w. unfold try_finally. specialize (Hb w).
  destruct (body w) as [r w1]. specialize (Hf w1).
  destruct (final w1) as [[u | e] w2]; simpl in *;
    eapply extends_trans; eassumption.
Qed.

Lemma quiet_emit ev : schedule_of ev = [] -> quiet (emit ev).
Proof. intros H w. simpl. by apply extends_record. Qed.

Lemma quiet_logging lvl r :
  schedule_of (Log lvl r) = [] -> quiet (logging lvl r).
Proof. apply quiet_emit. Qed.

Lemma quiet_raise_if o : quiet (raise_if o).
Proof. destruct o; [apply quiet_raise | apply quiet_ret]. Qed.

Lemma quiet_lift {A} (r : result A) : quiet (lift r).
Proof. destruct r; [apply quiet_ret | apply quiet_raise]. Qed.

Lemma quiet_aiofiles_open c p : quiet (aiofiles_open c p).
Proof.
  intros w. unfold aiofiles_open.
  destruct (open_fault c); [apply extends_refl |].
  destruct (resolve (disk w) p); [| apply extends_refl].
  split; [| split; reflexivity].
  exists []. split; [by rewrite app_nil_r | reflexivity].
Qed.

Lemma quiet_file_write c t s : quiet (file_write c t s).
Proof.
  intros w. unfold file_write.
  destruct (write_fault c); [apply extends_refl |].
  split; [| split; reflexivity].
  exists []. split; [by rewrite app_nil_r | reflexivity].
Qed.

Create HintDb quiet.
#[local] Hint Resolve quiet_ret quiet_raise quiet_bind quiet_try_except
  quiet_try_finally quiet_raise_if quiet_lift quiet_aiofiles_open
  quiet_file_write : quiet.
#[local] Hint Extern 1 (quiet (emit _)) => (apply quiet_emit; reflexivity) : quiet.
#[local] Hint Extern 1 (quiet (logging _ _)) => (apply quiet_logging; reflexivity) : quiet.
#[local] Hint Extern 1 (quiet (time_sleep Settle _)) => (apply quiet_emit; reflexivity) : quiet.

Ltac quiet_steps := repeat (intros; first
  [ apply quiet_bind | apply quiet_try_finally | apply quiet_try_except
  | solve [auto with quiet] ]).

Lemma quiet_fetch_html c u : quiet (_fetch_html c u).
Proof.
  unfold _fetch_html, driver_quit. destruct (launch (browser c u)); quiet_steps.
Qed.

Section StageFacts.
Variable BeautifulSoup : str -> node.
Variable str_of : node -> str.
Variable md : str -> str.

Lemma quiet_clean_html h : quiet (_clean_html BeautifulSoup str_of h).
Proof. unfold _clean_html. quiet_steps. Qed.

Lemma quiet_convert_to_markdown h : quiet (_convert_to_markdown md h).
Proof. unfold _convert_to_markdown. quiet_steps. Qed.

Lemma quiet_save_markdown c t s : quiet (_save_markdown c t s).
Proof. unfold _save_markdown. quiet_steps. Qed.

Lemma quiet_attempt_body c u t :
  quiet (attempt_body BeautifulSoup str_of md c u t).
Proof.
  unfold attempt_body. apply quiet_bind; [apply quiet_fetch_html |].
  intros [[| ch h] |]; [apply quiet_raise | | apply quiet_raise].
  apply quiet_bind; [apply quiet_clean_html |]. intros cleaned.
  apply quiet_bind; [apply quiet_convert_to_markdown |]. intros markdown.
  apply quiet_save_markdown.
Qed.
End StageFacts.

(** ** The persist stage looks at the directory tree only *)

Lemma walk_tree fs fs' cur comps :
  same_tree fs fs' ->
  ok_part (walk fs' cur comps) = ok_part (walk fs cur comps).
Proof.
  intros [_ Hd]. revert cur.
  induction comps as [| c rest IH]; intros cur; simpl; [reflexivity |].
  case_bool_decide; [apply IH |].
  rewrite Hd. case_bool_decide; [apply IH |].
  repeat case_bool_decide; reflexivity.
Qed.

Lemma resolve_tree fs fs' p :
  same_tree fs fs' ->
  ok_part (resolve fs' p) = ok_part (resolve fs p).
Proof.
  intros Ht. unfold resolve.
  destruct (split_last (parts p)) as [[dirparts name] |]; [| reflexivity].
  destruct Ht as [Hc Hd]. rewrite Hc.
  pose proof (walk_tree fs fs' (if anchored p then [] else cwd fs) dirparts
                (conj Hc Hd)) as Hw.
  destruct (walk fs' _ dirparts) as [d' | e'], (walk fs _ dirparts) as [d | e];
    simpl in Hw; try discriminate; [| reflexivity].
  injection Hw as ->. rewrite Hd.
  repeat case_bool_decide; reflexivity.
Qed.

Lemma persist_ok_tree c t fs fs' :
  same_tree fs fs' -> persist_ok c t fs' = persist_ok c t fs.
Proof.
  intros Ht. unfold persist_ok.
  pose proof (resolve_tree fs fs' (output_path t) Ht) as Hr.
  destruct (open_fault c); [reflexivity |].
  destruct (resolve fs' _), (resolve fs _); simpl in Hr; try discriminate; reflexivity.
Qed.

Lemma stages_succeed_tree c u t fs fs' :
  same_tree fs fs' -> stages_succeed c u t fs' = stages_succeed c u t fs.
Proof.
  intros Ht. unfold stages_succeed. by rewrite (persist_ok_tree c t fs fs' Ht).
Qed.

(** ** One attempt *)

Lemma fetch_html_result c u w :
  match _fetch_html c u w with
  | (Ok (Some (_ :: _)), w') => fetch_ok (browser c u) = true /\ disk w' = disk w
  | (_, w') => fetch_ok (browser c u) = false /\ disk w' = disk w
  end.
Proof.
  unfold _fetch_html, fetch_ok.
  destruct (browser c u) as [l n p q]; simpl.
  destruct l as [e |]; [by split |].
  destruct n as [e1 |], p as [[| ch h] | e2], q as [e3 |]; by split.
Qed.

Section AttemptFacts.
Variable BeautifulSoup : str -> node.
Variable str_of : node -> str.
Variable md : str -> str.

Lemma save_markdown_ok c t s w :
  is_ok (fst (_save_markdown c t s w)) = persist_ok c t (disk w).
Proof.
  unfold _save_markdown, persist_ok, bind, aiofiles_open, file_write.
  destruct (open_fault c); [reflexivity |].
  destruct (resolve (disk w) (output_path t)); [| reflexivity].
  destruct (write_fault c); reflexivity.
Qed.

Lemma attempt_body_ok c u t w :
  is_ok (fst (attempt_body BeautifulSoup str_of md c u t w))
  = stages_succeed c u t (disk w).
Proof.
  unfold attempt_body, stages_succeed. unfold bind at 1.
  pose proof (fetch_html_result c u w) as Hf.
  destruct (_fetch_html c u w) as [[[[| ch h] |] | e] w1];
    destruct Hf as [-> Hd]; try reflexivity.
  simpl andb. rewrite <- Hd.
  unfold _clean_html, _convert_to_markdown, bind at 1 2 3 4, logging, emit, ret.
  rewrite save_markdown_ok. reflexivity.
Qed.
End AttemptFacts.

(** ** The retry loop *)

Lemma range_nonpositive n : n <= 0 -> range n = [].
Proof. intros H. unfold range. replace (Z.to_nat n) with 0%nat by lia. reflexivity. Qed.

Lemma range_split n (k : nat) :
  (k < Z.to_nat n)%nat ->
  range n = map Z.of_nat (seq 0 k)
            ++ Z.of_nat k :: map Z.of_nat (seq (S k) (Z.to_nat n - S k)).
Proof.
  intros H. unfold range.
  replace (Z.to_nat n) with (k + S (Z.to_nat n - S k))%nat at 1 by lia.
  rewrite seq_app, map_app. simpl. reflexivity.
Qed.

Lemma failed_rounds_attempts a j s :
  length (List.filter is_attempt (failed_rounds a j ++ s))
  = (j + length (List.filter is_attempt s))%nat.
Proof.
  revert a. induction j as [| j IH]; intros a; simpl; [reflexivity |].
  by rewrite IH.
Qed.

Lemma failed_rounds_waits a j s :
  flat_map (fun st => match st with Wait d => [d] | Attempt _ => [] end)
    (failed_rounds a j ++ s)
  = map (fun i => 2 ^ (a + Z.of_nat i)) (seq 0 j)
    ++ flat_map (fun st => match st with Wait d => [d] | Attempt _ => [] end) s.
Proof.
  revert a. induction j as [| j IH]; intros a; [reflexivity |].
  cbn [failed_rounds app flat_map seq map]. rewrite IH. f_equal.
  - f_equal. lia.
  - f_equal. rewrite <- seq_shift, map_map.
    apply map_ext. intros i. f_equal. lia.
Qed.

Section LoopFacts.
Variable BeautifulSoup : str -> node.
Variable str_of : node -> str.
Variable md : str -> str.
Variable max_retries : Z.
Variable env : Z -> conditions.
Variables u t : str.

Local Abbreviation loop := (retry_loop BeautifulSoup str_of md max_retries env u t).
Local Abbreviation body c := (attempt_body BeautifulSoup str_of md c u t).

(** What one turn of the loop does with the outcome of the attempt. *)
Lemma attempt_outcome c w :
  exists r w1,
    body c w = (r, w1)
    /\ extends w w1
    /\ is_ok r = stages_succeed c u t (disk w).
Proof.
  pose proof (quiet_attempt_body BeautifulSoup str_of md c u t w) as Hq.
  pose proof (attempt_body_ok BeautifulSoup str_of md c u t w) as Ho.
  destruct (body c w) as [r w1]. exists r, w1. auto.
Qed.

Lemma retry_loop_success k rest w :
  stages_succeed (env k) u t (disk w) = true ->
  exists w' evs,
    loop (k :: rest) w = (PyTrue, w')
    /\ events w' = events w ++ evs
    /\ schedule evs = [Attempt true].
Proof.
  intros Hs. cbn [retry_loop].
  destruct (attempt_outcome (env k) w) as (r & w1 & -> & [(evs & He & Hq) _] & Ho).
  rewrite Hs in Ho. destruct r as [[] | e]; [| discriminate].
  eexists _, (evs ++ [Log INFO (Processed t)]). split; [reflexivity |]. split.
  - simpl. rewrite He. by rewrite app_assoc.
  - rewrite schedule_app, Hq. reflexivity.
Qed.

Lemma retry_loop_last_failure k rest w :
  stages_succeed (env k) u t (disk w) = false ->
  max_retries - 1 <= k ->
  exists w' evs,
    loop (k :: rest) w = (PyFalse, w')
    /\ events w' = events w ++ evs
    /\ schedule evs = [Attempt false].
Proof.
  intros Hs Hk. cbn [retry_loop].
  destruct (attempt_outcome (env k) w) as (r & w1 & -> & [(evs & He & Hq) _] & Ho).
  rewrite Hs in Ho. destruct r as [[] | e]; [discriminate |].
  replace (k <? max_retries - 1) with false by (symmetry; apply Z.ltb_ge; lia).
  eexists _, (evs ++ [Log ERROR (AttemptFailed (k + 1) max_retries t e);
                      Log ERROR (RetriesExhausted t)]).
  split; [reflexivity |]. split.
  - simpl. rewrite He. by rewrite <- !app_assoc.
  - rewrite schedule_app, Hq. reflexivity.
Qed.

Lemma retry_loop_failed_prefix fs0 j : forall a rest w,
  same_tree fs0 (disk w) ->
  (forall i, (a <= i < a + j)%nat ->
             stages_succeed (env (Z.of_nat i)) u t fs0 = false) ->
  Z.of_nat (a + j) <= max_retries - 1 ->
  exists w' evs,
    loop (map Z.of_nat (seq a j) ++ rest) w = loop rest w'
    /\ same_tree fs0 (disk w')
    /\ events w' = events w ++ evs
    /\ schedule evs = failed_rounds (Z.of_nat a) j.
Proof.
  induction j as [| j IH]; intros a rest w Ht Hf Hle.
  - exists w, []. simpl. rewrite app_nil_r. auto.
  - cbn [seq map app retry_loop].
    destruct (attempt_outcome (env (Z.of_nat a)) w)
      as (r & w1 & -> & [(evs & He & Hq) Ht1] & Ho).
    rewrite (stages_succeed_tree _ u t fs0 (disk w) Ht), Hf in Ho by lia.
    destruct r as [[] | e]; [discriminate |].
    replace (Z.of_nat a <? max_retries - 1) with true
      by (symmetry; apply Z.ltb_lt; lia).
    edestruct (IH (S a) rest) as (w' & evs' & Hl & Ht' & He' & Hq');
      [| | | rewrite Hl; exists w', (evs ++ Log ERROR (AttemptFailed (Z.of_nat a + 1) max_retries t e) :: Sleep Backoff (2 ^ Z.of_nat a) :: evs')].
    + simpl. eapply same_tree_trans; eassumption.
    + intros i Hi. apply Hf. lia.
    + lia.
    + split; [reflexivity |]. split; [exact Ht' |]. split.
      * rewrite He'. simpl. rewrite He. rewrite <- !app_assoc. reflexivity.
      * rewrite schedule_app, Hq. cbn [app]. unfold schedule at 1.
        cbn [flat_map schedule_of app]. fold (schedule evs'). rewrite Hq'.
        cbn [failed_rounds]. repeat f_equal. lia.
Qed.

(** Every attempt fails: the loop uses all [max_retries] turns. *)
Lemma extract_url_exhausts w :
  1 <= max_retries ->
  (forall i, 0 <= i < max_retries ->
             stages_succeed (env i) u t (disk w) = false) ->
  exists w' evs,
    extract_url BeautifulSoup str_of md max_retries env u t w = (PyFalse, w')
    /\ events w' = events w ++ evs
    /\ schedule evs
       = failed_rounds 0 (Z.to_nat max_retries - 1) ++ [Attempt false].
Proof.
  intros Hn Hf. unfold extract_url.
  rewrite (range_split max_retries (Z.to_nat max_retries - 1)) by lia.
  replace (Z.to_nat max_retries - S (Z.to_nat max_retries - 1))%nat with 0%nat by lia.
  destruct (retry_loop_failed_prefix (disk w) (Z.to_nat max_retries - 1) 0
              (Z.of_nat (Z.to_nat max_retries - 1) :: map Z.of_nat (seq (S (Z.to_nat max_retries - 1)) 0)) w)
    as (w1 & evs1 & Hl & Ht & He & Hq).
  { apply same_tree_refl. }
  { intros i Hi. apply Hf. lia. }
  { lia. }
  rewrite Hl.
  destruct (retry_loop_last_failure (Z.of_nat (Z.to_nat max_retries - 1))
              (map Z.of_nat (seq (S (Z.to_nat max_retries - 1)) 0)) w1)
    as (w2 & evs2 & Hl2 & He2 & Hq2).
  { rewrite (stages_succeed_tree _ u t (disk w) (disk w1) Ht). apply Hf. lia. }
  { lia. }
  exists w2, (evs1 ++ evs2). split; [exact Hl2 |]. split.
  - rewrite He2, He. by rewrite app_assoc.
  - rewrite schedule_app, Hq, Hq2. reflexivity.
Qed.

(** The attempts before the [k]-th fail and the [k]-th succeeds: the
    loop stops there. *)
Lemma extract_url_succeeds_at (k : Z) w :
  1 <= k <= max_retries ->
  (forall i, 0 <= i < k - 1 ->
             stages_succeed (env i) u t (disk w) = false) ->
  stages_succeed (env (k - 1)) u t (disk w) = true ->
  exists w' evs,
    extract_url BeautifulSoup str_of md max_retries env u t w = (PyTrue, w')
    /\ events w' = events w ++ evs
    /\ schedule evs = failed_rounds 0 (Z.to_nat (k - 1)) ++ [Attempt true].
Proof.
  intros Hk Hf Hs. unfold extract_url.
  rewrite (range_split max_retries (Z.to_nat (k - 1))) by lia.
  destruct (retry_loop_failed_prefix (disk w) (Z.to_nat (k - 1)) 0
              (Z.of_nat (Z.to_nat (k - 1))
               :: map Z.of_nat (seq (S (Z.to_nat (k - 1)))
                                    (Z.to_nat max_retries - S (Z.to_nat (k - 1))))) w)
    as (w1 & evs1 & Hl & Ht & He & Hq).
  { apply same_tree_refl. }
  { intros i Hi. apply Hf. lia. }
  { lia. }
  rewrite Hl.
  edestruct (retry_loop_success (Z.of_nat (Z.to_nat (k - 1)))) with (w := w1)
    as (w2 & evs2 & Hl2 & He2 & Hq2).
  { rewrite (stages_succeed_tree _ u t (disk w) (disk w1) Ht).
    replace (Z.of_nat (Z.to_nat (k - 1))) with (k - 1) by lia. exact Hs. }
  exists w2, (evs1 ++ evs2). split; [exact Hl2 |]. split.
  - rewrite He2, He. by rewrite app_assoc.
  - rewrite schedule_app, Hq, Hq2. reflexivity.
Qed.

(** As soon as the loop has a turn to run, it returns a boolean. *)
Lemma retry_loop_bool j : forall a w,
  Z.of_nat (a + j) = max_retries - 1 ->
  is_bool (fst (loop (map Z.of_nat (seq a (S j))) w)) = true.
Proof.
  induction j as [| j IH]; intros a w Hn; cbn [seq map retry_loop].
  - destruct (body (env (Z.of_nat a)) w) as [[[] | e] w1]; [reflexivity |].
    replace (Z.of_nat a <? max_retries - 1) with false
      by (symmetry; apply Z.ltb_ge; lia).
    reflexivity.
  - destruct (body (env (Z.of_nat a)) w) as [[[] | e] w1]; [reflexivity |].
    destruct (Z.of_nat a <? max_retries - 1); [| reflexivity].
    apply (IH (S a)). lia.
Qed.

Lemma extract_url_bool w :
  1 <= max_retries ->
  is_bool (fst (extract_url BeautifulSoup str_of md max_retries env u t w)) = true.
Proof.
  intros Hn. unfold extract_url, range.
  replace (Z.to_nat max_retries) with (S (Z.to_nat max_retries - 1)) by lia.
  apply (retry_loop_bool (Z.to_nat max_retries - 1) 0%nat). lia.
Qed.

Lemma extract_url_none w :
  max_retries <= 0 ->
  extract_url BeautifulSoup str_of md max_retries env u t w = (PyNone, w).
Proof. intros Hn. unfold extract_url. rewrite range_nonpositive by lia. reflexivity. Qed.
End LoopFacts.

Lemma attempts_of_rounds evs j b :
  schedule evs = failed_rounds 0 j ++ [Attempt b] ->
  attempts_made evs = Z.of_nat j + 1.
Proof.
  intros H. unfold attempts_made, len. rewrite H, failed_rounds_attempts.
  simpl. lia.
Qed.

Lemma sleeps_of_rounds evs j b :
  schedule evs = failed_rounds 0 j ++ [Attempt b] ->
  backoff_sleeps evs = map (fun n => 1 * 2 ^ (Z.of_nat n - 1)) (seq 1 j).
Proof.
  intros H. unfold backoff_sleeps. rewrite H, failed_rounds_waits.
  simpl. rewrite app_nil_r, <- seq_shift, map_map.
  apply map_ext. intros i. rewrite Z.mul_1_l. f_equal. lia.
Qed.

Lemma fetch_fails_stages c u t fs :
  fetch_ok (browser c u) = false -> stages_succeed c u t fs = false.
Proof. intros H. unfold stages_succeed. by rewrite H. Qed.

(** C2.  When the fetch stage fails on every attempt, [extract_url] makes
    exactly [max_retries] attempts and returns [False]; between
    consecutive attempts it sleeps 1, 2, 4, ... seconds, that is
    [1 * 2 ^ (n - 1)] after the [n]-th failed attempt, and it does not
    sleep after the last one. *)
Theorem extract_url_fetch_always_fails
    (BeautifulSoup : str -> node) (str_of : node -> str) (md : str -> str)
    (max_retries : Z) (env : Z -> conditions) (u t : str) (w : world) :
  1 <= max_retries ->
  (forall i, 0 <= i < max_retries -> fetch_ok (browser (env i) u) = false) ->
  exists w' evs,
    extract_url BeautifulSoup str_of md max_retries env u t w = (PyFalse, w')
    /\ events w' = events w ++ evs
    /\ attempts_made evs = max_retries
    /\ backoff_sleeps evs
       = map (fun n => 1 * 2 ^ (Z.of_nat n - 1)) (seq 1 (Z.to_nat max_retries - 1))
    /\ schedule evs = failed_rounds 0 (Z.to_nat max_retries - 1) ++ [Attempt false].
Proof.
  intros Hn Hf.
  destruct (extract_url_exhausts BeautifulSoup str_of md max_retries env u t w Hn)
    as (w' & evs & Hr & He & Hs).
  { intros i Hi. apply fetch_fails_stages. by apply Hf. }
  exists w', evs. repeat split; try assumption.
  - rewrite (attempts_of_rounds _ _ _ Hs). lia.
  - exact (sleeps_of_rounds _ _ _ Hs).
Qed.

Lemma extract_url_fetch_always_fails_witness :
  1 <= MAX_RETRIES
  /\ (forall i, 0 <= i < MAX_RETRIES ->
                fetch_ok (browser ((fun _ => offline) i) (py "https://example.org/")) = false)
  /\ exists w' evs,
       extract_url flat_parser flat_str_of identity_md MAX_RETRIES
         (fun _ => offline) (py "https://example.org/") (py "page") example_world
       = (PyFalse, w')
       /\ events w' = events example_world ++ evs
       /\ attempts_made evs = MAX_RETRIES
       /\ backoff_sleeps evs
          = map (fun n => 1 * 2 ^ (Z.of_nat n - 1)) (seq 1 (Z.to_nat MAX_RETRIES - 1))
       /\ schedule evs = failed_rounds 0 (Z.to_nat MAX_RETRIES - 1) ++ [Attempt false].
Proof.
  split; [unfold MAX_RETRIES; lia |].
  split; [intros i _; reflexivity |].
  apply extract_url_fetch_always_fails;
    [unfold MAX_RETRIES; lia | intros i _; reflexivity].
Defined.

(** C3.  When every stage succeeds on attempt [k <= max_retries] after the
    attempts [1 .. k - 1] failed, [extract_url] returns [True] after
    exactly [k] attempts: the last entry of the schedule is the
    successful attempt. *)
Theorem extract_url_succeeds_on_attempt
    (BeautifulSoup : str -> node) (str_of : node -> str) (md : str -> str)
    (max_retries : Z) (env : Z -> conditions) (u t : str) (w : world) (k : Z) :
  1 <= k <= max_retries ->
  (forall i, 0 <= i < k - 1 -> stages_succeed (env i) u t (disk w) = false) ->
  stages_succeed (env (k - 1)) u t (disk w) = true ->
  exists w' evs,
    extract_url BeautifulSoup str_of md max_retries env u t w = (PyTrue, w')
    /\ events w' = events w ++ evs
    /\ attempts_made evs = k
    /\ schedule evs = failed_rounds 0 (Z.to_nat (k - 1)) ++ [Attempt true].
Proof.
  intros Hk Hf Hs.
  destruct (extract_url_succeeds_at BeautifulSoup str_of md max_retries env u t k w
              Hk Hf Hs) as (w' & evs & Hr & He & Hq).
  exists w', evs. repeat split; try assumption.
  rewrite (attempts_of_rounds _ _ _ Hq). lia.
Qed.

Lemma extract_url_succeeds_on_attempt_witness :
  1 <= 2 <= MAX_RETRIES
  /\ (forall i, 0 <= i < 2 - 1 ->
        stages_succeed (recovering i) (py "https://example.org/") (py "page")
          (disk example_world) = false)
  /\ stages_succeed (recovering (2 - 1)) (py "https://example.org/") (py "page")
       (disk example_world) = true
  /\ exists w' evs,
       extract_url flat_parser flat_str_of identity_md MAX_RETRIES recovering
         (py "https://example.org/") (py "page") example_world = (PyTrue, w')
       /\ events w' = events example_world ++ evs
       /\ attempts_made evs = 2
       /\ schedule evs = failed_rounds 0 (Z.to_nat (2 - 1)) ++ [Attempt true].
Proof.
  assert (H1 : 1 <= 2 <= MAX_RETRIES) by (unfold MAX_RETRIES; lia).
  assert (H2 : forall i, 0 <= i < 2 - 1 ->
            stages_succeed (recovering i) (py "https://example.org/") (py "page")
              (disk example_world) = false).
  { intros i Hi. replace i with 0 by lia. vm_compute. reflexivity. }
  assert (H3 : stages_succeed (recovering (2 - 1)) (py "https://example.org/")
                 (py "page") (disk example_world) = true)
    by (vm_compute; reflexivity).
  split; [exact H1 |]. split; [exact H2 |]. split; [exact H3 |].
  exact (extract_url_succeeds_on_attempt flat_parser flat_str_of identity_md
           MAX_RETRIES recovering (py "https://example.org/") (py "page")
           example_world 2 H1 H2 H3).
Defined.

(** C5, as the code has it.  There is no class of errors that ends the
    loop early: an item that fails on every attempt, whatever the cause (a
    malformed URL or label included), is retried like any other and yields
    [False] only after [max_retries] attempts. *)
Theorem extract_url_retries_every_failure
    (BeautifulSoup : str -> node) (str_of : node -> str) (md : str -> str)
    (max_retries : Z) (env : Z -> conditions) (u t : str) (w : world) :
  1 <= max_retries ->
  (forall i, 0 <= i < max_retries -> stages_succeed (env i) u t (disk w) = false) ->
  exists w' evs,
    extract_url BeautifulSoup str_of md max_retries env u t w = (PyFalse, w')
    /\ events w' = events w ++ evs
    /\ attempts_made evs = max_retries.
Proof.
  intros Hn Hf.
  destruct (extract_url_exhausts BeautifulSoup str_of md max_retries env u t w Hn Hf)
    as (w' & evs & Hr & He & Hs).
  exists w', evs. repeat split; try assumption.
  rewrite (attempts_of_rounds _ _ _ Hs). lia.
Qed.

Lemma extract_url_retries_every_failure_witness :
  1 <= MAX_RETRIES
  /\ (forall i, 0 <= i < MAX_RETRIES ->
        stages_succeed ((fun _ => calm) i) (py "https://example.org/")
          (py "no/such/dir/page") (disk example_world) = false)
  /\ exists w' evs,
       extract_url flat_parser flat_str_of identity_md MAX_RETRIES (fun _ => calm)
         (py "https://example.org/") (py "no/such/dir/page") example_world
       = (PyFalse, w')
       /\ events w' = events example_world ++ evs
       /\ attempts_made evs = MAX_RETRIES.
Proof.
  assert (H1 : 1 <= MAX_RETRIES) by (unfold MAX_RETRIES; lia).
  assert (H2 : forall i, 0 <= i < MAX_RETRIES ->
            stages_succeed ((fun _ => calm) i) (py "https://example.org/")
              (py "no/such/dir/page") (disk example_world) = false)
    by (intros i _; vm_compute; reflexivity).
  split; [exact H1 |]. split; [exact H2 |].
  exact (extract_url_retries_every_failure flat_parser flat_str_of identity_md
           MAX_RETRIES (fun _ => calm) (py "https://example.org/")
           (py "no/such/dir/page") example_world H1 H2).
Defined.

(** C5 as stated fails: a URL the browser rejects as malformed on every
    attempt is tried [MAX_RETRIES = 3] times, with both back-offs, before
    [False] comes back; the run does not stop after the first attempt. *)
Lemma malformed_url_is_retried :
  let run := extract_url flat_parser flat_str_of identity_md MAX_RETRIES
               (fun _ => rejecting) (py "not a url") (py "page") example_world in
  fst run = PyFalse
  /\ schedule (events (snd run))
     = [Attempt false; Wait 1; Attempt false; Wait 2; Attempt false]
  /\ attempts_made (events (snd run)) = 3
  /\ attempts_made (events (snd run)) <> 1.
Proof. vm_compute. repeat split; discriminate. Qed.

(** C10.  [extract_url] returns [True] or [False] on every run exactly
    when [max_retries >= 1]; when [max_retries <= 0] the loop body never
    runs, nothing happens and the value is [None]. *)
Theorem extract_url_bool_iff_positive_retries
    (BeautifulSoup : str -> node) (str_of : node -> str) (md : str -> str)
    (max_retries : Z) :
  ((forall env u t w,
      is_bool (fst (extract_url BeautifulSoup str_of md max_retries env u t w)) = true)
   <-> 1 <= max_retries)
  /\ (max_retries <= 0 ->
      forall env u t w,
        extract_url BeautifulSoup str_of md max_retries env u t w = (PyNone, w)).
Proof.
  split; [split |].
  - intros H. destruct (Z_le_gt_dec 1 max_retries) as [Hle | Hgt]; [exact Hle |].
    specialize (H (fun _ => calm) [] [] example_world).
    rewrite extract_url_none in H by lia. discriminate.
  - intros Hn env u t w. by apply extract_url_bool.
  - intros Hn env u t w. by apply extract_url_none.
Qed.

(** C4, as the code has it.  For a label whose output path resolves
    outside the output root, [_save_markdown] checks nothing and changes
    nothing in the label: the outcome is decided by the operating system
    alone.  When the open and the write go through, the content is written
    where the path resolves; an exception is raised only when the open or
    the write fails. *)
Theorem save_markdown_follows_the_path
    (c : conditions) (t content : str) (w : world) (target : list str) :
  resolve (disk w) (output_path t) = Ok target ->
  inside_root (disk w) target = false ->
  match open_fault c, write_fault c with
  | None, None =>
      exists w', _save_markdown c t content w = (Ok tt, w')
                 /\ files (disk w') !! target = Some content
  | Some e, _ => _save_markdown c t content w = (Raise e, w)
  | None, Some e =>
      exists w', _save_markdown c t content w = (Raise e, w')
                 /\ files (disk w') !! target = Some []
  end.
Proof.
  intros Hr _. unfold _save_markdown, bind, aiofiles_open, file_write.
  destruct (open_fault c) as [e |]; [reflexivity |].
  rewrite Hr. destruct (write_fault c) as [e |].
  - eexists. split; [reflexivity |]. simpl. apply lookup_insert_eq.
  - eexists. split; [reflexivity |]. simpl. apply lookup_insert_eq.
Qed.

Lemma save_markdown_follows_the_path_witness :
  resolve (disk example_world) (output_path (py "/home/page"))
  = Ok [py "home"; py "page.md"]
  /\ inside_root (disk example_world) [py "home"; py "page.md"] = false
  /\ exists w', _save_markdown calm (py "/home/page") (py "text") example_world = (Ok tt, w')
                /\ files (disk w') !! [py "home"; py "page.md"] = Some (py "text").
Proof.
  assert (H1 : resolve (disk example_world) (output_path (py "/home/page"))
               = Ok [py "home"; py "page.md"]) by (vm_compute; reflexivity).
  assert (H2 : inside_root (disk example_world) [py "home"; py "page.md"] = false)
    by (vm_compute; reflexivity).
  split; [exact H1 |]. split; [exact H2 |].
  exact (save_markdown_follows_the_path calm (py "/home/page") (py "text")
           example_world [py "home"; py "page.md"] H1 H2).
Defined.

(** C4 as stated fails: the label [../escape] resolves to [escape.md]
    beside the output root, not inside it, and the write is not rejected:
    it succeeds and the content is there. *)
Lemma traversal_label_is_written_outside_root :
  let run := _save_markdown calm (py "../escape") (py "text") example_world in
  output_root example_disk = Ok [py "home"; py "output"]
  /\ resolve example_disk (output_path (py "../escape"))
     = Ok [py "home"; py "escape.md"]
  /\ inside_root example_disk [py "home"; py "escape.md"] = false
  /\ fst run = Ok tt
  /\ files (disk (snd run)) !! [py "home"; py "escape.md"] = Some (py "text").
Proof. vm_compute. repeat split. Qed.

(** C8.  The transformer is deterministic: applied to the same input in
    any two worlds (whatever was logged, slept or written before), it
    returns the same text, which is the output of the converter with the
    trailing white space of each line and the white space around the
    whole removed. *)
Theorem convert_to_markdown_deterministic
    (md : str -> str) (html : str) (w1 w2 : world) :
  fst (_convert_to_markdown md html w1) = fst (_convert_to_markdown md html w2)
  /\ fst (_convert_to_markdown md html w1)
     = Ok (strip (join [newline] (map rstrip (split newline (md html))))).
Proof. split; reflexivity. Qed.

(** ** Searching the document *)

(** Induction on a document: the children of an element satisfy the
    property before the element does. *)
Lemma node_tree_ind (P : node -> Prop) :
  (forall s, P (NavigableString s)) ->
  (forall nm attrs cs, Forall P cs -> P (Tag nm attrs cs)) ->
  forall n, P n.
Proof.
  intros Hs Ht. fix IH 1. intros [s | nm attrs cs]; [apply Hs |].
  apply Ht. induction cs as [| c cs IHcs]; constructor; [apply IH | exact IHcs].
Qed.

Lemma head_app_filter {A} (l1 l2 : list A) :
  head (l1 ++ l2) = match head l1 with Some x => Some x | None => head l2 end.
Proof. destruct l1; reflexivity. Qed.

Section FirstElement.
Variable p : node -> bool.
Hypothesis p_text : forall s, p (NavigableString s) = false.

Lemma first_of_children (cs : list node) :
  Forall (fun c => first_in p c = head (List.filter p (subtree c))) cs ->
  first_of p cs = head (List.filter p (flat_map subtree cs)).
Proof.
  induction 1 as [| c cs Hc _ IH]; [reflexivity |].
  cbn [first_of flat_map]. rewrite List.filter_app, head_app_filter, <- Hc, IH.
  reflexivity.
Qed.

Lemma first_in_children (cs : list node) :
  (fix go (l : list node) : option node :=
     match l with
     | [] => None
     | c :: l' => match first_in p c with Some r => Some r | None => go l' end
     end) cs = first_of p cs.
Proof. induction cs as [| c cs IH]; [reflexivity |]. simpl. by rewrite IH. Qed.

Lemma first_in_subtree (n : node) :
  first_in p n = head (List.filter p (subtree n)).
Proof.
  induction n as [s | nm attrs cs IH] using node_tree_ind.
  - simpl. by rewrite p_text.
  - cbn [first_in subtree List.filter]. rewrite first_in_children.
    destruct (p (Tag nm attrs cs)); [reflexivity |].
    by apply first_of_children.
Qed.

Lemma first_of_descendants (soup : node) :
  match soup with
  | NavigableString _ => None
  | Tag _ _ cs => first_of p cs
  end = first_element p soup.
Proof.
  unfold first_element, descendants. destruct soup as [s | nm attrs cs]; [reflexivity |].
  apply first_of_children. apply Forall_forall. intros c _. apply first_in_subtree.
Qed.
End FirstElement.

(** [soup.find] returns the first matching element in document order. *)
Lemma find_first_element name kw soup :
  find name kw soup = first_element (find_matches name kw) soup.
Proof. unfold find. apply first_of_descendants. reflexivity. Qed.

Lemma main_content_first_match soup :
  main_content soup = first_match content_candidates soup.
Proof.
  unfold main_content, content_candidates, first_match, py_or.
  rewrite !find_first_element.
  repeat match goal with
         | |- context [first_element ?f soup] =>
             destruct (first_element f soup); try reflexivity
         end.
Qed.

(** On the sample page the navigation bar goes with the [main] inside it,
    the script goes, and the remaining [main] wins over the [div] that
    comes before it. *)
Example primary_region_sample_page :
  primary_region (remove_unwanted sample_page)
  = Tag (py "main") [] [NavigableString (py "article text")].
Proof. vm_compute. reflexivity. Qed.

(** C6.  The sanitizer returns a text for every input and never raises.
    The text is that of the primary content region of the document left
    after the unwanted elements are gone: the first [main] element, else
    the first [article], else the first [div] of class [content], else
    the first [div] of id [content], else the first [div] of role [main];
    when none exists the body, and without a body the whole document. *)
Theorem clean_html_selects_primary_region
    (BeautifulSoup : str -> node) (str_of : node -> str) (html : str) (w : world) :
  exists w',
    _clean_html BeautifulSoup str_of html w
    = (Ok (str_of (primary_region (remove_unwanted (BeautifulSoup html)))), w').
Proof.
  eexists. unfold _clean_html, bind, logging, emit, ret. cbn beta iota.
  unfold cleaned_region, primary_region, body.
  rewrite main_content_first_match, find_first_element. reflexivity.
Qed.

(** ** The pool *)

Lemma insert_by_perm t x l : insert_by t x l ≡ₚ x :: l.
Proof.
  induction l as [| y l IH]; simpl; [reflexivity |].
  destruct (t x <=? t y)%nat; [reflexivity |].
  rewrite IH. apply Permutation_swap.
Qed.

(** Every future is yielded once, in some order. *)
Lemma as_completed_perm t fs : as_completed t fs ≡ₚ fs.
Proof.
  induction fs as [| f fs IH]; simpl; [reflexivity |].
  rewrite insert_by_perm. by rewrite IH.
Qed.

(** The keys of [future_to_url] are the futures of the targets. *)
Lemma dict_keys_perm (items : list TargetUrl) :
  dict_keys (future_to_url items) ≡ₚ seq 0 (length items).
Proof.
  apply NoDup_Permutation.
  - apply NoDup_fst_map_to_list.
  - apply NoDup_seq.
  - intros k. unfold dict_keys, future_to_url. rewrite elem_of_seq.
    rewrite list_elem_of_fmap. split.
    + intros ([k' item] & -> & Hin). apply elem_of_map_to_list in Hin.
      rewrite lookup_map_seq_0 in Hin. apply lookup_lt_Some in Hin. simpl. lia.
    + intros Hk. destruct (lookup_lt_is_Some_2 items k) as [item Hitem]; [lia |].
      exists (k, item). split; [reflexivity |].
      apply elem_of_map_to_list. by rewrite lookup_map_seq_0.
Qed.

Lemma filter_length_perm {A} (f : A -> bool) (l l' : list A) :
  l ≡ₚ l' -> length (List.filter f l) = length (List.filter f l').
Proof.
  induction 1 as [| x l l' _ IH | x y l | l1 l2 l3 _ IH1 _ IH2]; simpl.
  - reflexivity.
  - destruct (f x); simpl; by rewrite IH.
  - destruct (f x), (f y); reflexivity.
  - by rewrite IH1.
Qed.

Section PoolFacts.
Variable outcome : nat -> TargetUrl -> result pyval.
Variable done_at : nat -> nat.

Lemma collect_appends d acc k w :
  is_Some (d !! k) ->
  exists w', collect outcome d acc k w = (Ok (acc ++ [recorded_at outcome d k]), w').
Proof.
  intros [item Hitem].
  unfold collect, dict_get, recorded_at, bind, try_except, lift. rewrite Hitem.
  simpl. destruct (outcome k item) as [v | e]; simpl; eexists; reflexivity.
Qed.

Lemma for_each_appends d fs : forall acc w,
  Forall (fun k => is_Some (d !! k)) fs ->
  exists w', for_each outcome d acc fs w
             = (Ok (acc ++ map (recorded_at outcome d) fs), w').
Proof.
  induction fs as [| k fs IH]; intros acc w Hall.
  - exists w. simpl. by rewrite app_nil_r.
  - inversion Hall as [| ? ? Hk Hfs]; subst.
    destruct (collect_appends d acc k w Hk) as (w1 & Hc).
    destruct (IH (acc ++ [recorded_at outcome d k]) w1 Hfs) as (w2 & Hf).
    exists w2. cbn [for_each]. unfold bind at 1. rewrite Hc, Hf.
    by rewrite <- app_assoc.
Qed.

Lemma recorded_in_order (items : list TargetUrl) :
  map (recorded_at outcome (future_to_url items)) (seq 0 (length items))
  = imap (recorded outcome) items.
Proof.
  apply list_eq. intros i.
  rewrite list_lookup_fmap, list_lookup_imap. unfold future_to_url.
  destruct (decide (i < length items)%nat) as [Hlt | Hge].
  - rewrite lookup_seq_lt by exact Hlt. simpl.
    destruct (lookup_lt_is_Some_2 items i Hlt) as [item Hitem].
    rewrite Hitem. simpl. unfold recorded_at, recorded.
    by rewrite lookup_map_seq_0, Hitem.
  - rewrite lookup_seq_ge by lia. rewrite lookup_ge_None_2 by lia. reflexivity.
Qed.

(** [main] always reaches the summary, with one entry of [results] per
    target. *)
Lemma main_completes (items : list TargetUrl) (w : world) :
  exists r w',
    main outcome done_at items w = (Ok r, w')
    /\ results r ≡ₚ imap (recorded outcome) items
    /\ success_count r = len (List.filter is_True (results r))
    /\ failure_count r = len (results r) - success_count r.
Proof.
  unfold main. unfold bind at 1. cbn [logging emit].
  set (d := future_to_url items).
  set (w0 := record_event _ w).
  destruct (for_each_appends d (as_completed done_at (dict_keys d)) [] w0)
    as (w1 & Hf).
  { apply Forall_forall. intros k Hk. unfold d in Hk |- *.
    rewrite as_completed_perm, dict_keys_perm in Hk.
    apply elem_of_seq in Hk. unfold future_to_url.
    rewrite lookup_map_seq_0. apply lookup_lt_is_Some_2. lia. }
  unfold bind at 1. rewrite Hf. cbn [app].
  eexists _, _. split; [reflexivity |]. cbn [results success_count failure_count].
  split; [| split; reflexivity].
  unfold d. rewrite as_completed_perm, dict_keys_perm.
  by rewrite recorded_in_order.
Qed.
End PoolFacts.

(** C7.  Whatever the futures hold, an exception of any item included,
    [main] reaches its summary: no exception leaves the loop.  The entry
    recorded for an item whose future raised is [False], the other items
    keep their own outcome, and the report covers every item: the count of
    successes is the number of items whose own outcome is [True], in
    whatever order the futures complete. *)
Theorem main_isolates_failures
    (outcome : nat -> TargetUrl -> result pyval) (done_at : nat -> nat)
    (items : list TargetUrl) (w : world) :
  exists r w',
    main outcome done_at items w = (Ok r, w')
    /\ results r
       ≡ₚ imap (fun i item =>
                  match outcome i item with
                  | Ok v => v
                  | Raise _ => PyFalse
                  end) items
    /\ total r = len items
    /\ success_count r + failure_count r = total r
    /\ success_count r
       = len (List.filter is_True
                (imap (fun i item =>
                         match outcome i item with
                         | Ok v => v
                         | Raise _ => PyFalse
                         end) items)).
Proof.
  destruct (main_completes outcome done_at items w) as (r & w' & Hm & Hp & Hs & Hf).
  exists r, w'. split; [exact Hm |]. split; [exact Hp |].
  assert (Ht : total r = len items).
  { unfold total, len. rewrite (Permutation_length Hp), length_imap. reflexivity. }
  split; [exact Ht |]. split; [unfold total; lia |].
  rewrite Hs. unfold len. by rewrite (filter_length_perm is_True _ _ Hp).
Qed.

(** C1.  For every list of targets, [main] ends with
    [total = succeeded + failed = number of targets], and [results] holds
    exactly one outcome per target, each of them a boolean. *)
Theorem main_report_counts
    (BeautifulSoup : str -> node) (str_of : node -> str) (md : str -> str)
    (max_retries : Z) (envs : nat -> Z -> conditions) (worlds : nat -> world)
    (done_at : nat -> nat) (items : list TargetUrl) (w : world) :
  1 <= max_retries ->
  exists r w',
    main (pipeline_outcome BeautifulSoup str_of md max_retries envs worlds)
      done_at items w = (Ok r, w')
    /\ total r = len items
    /\ success_count r + failure_count r = total r
    /\ results r
       ≡ₚ imap (fun i item =>
                  fst (extract_url BeautifulSoup str_of md max_retries (envs i)
                         (url item) (title item) (worlds i))) items
    /\ Forall (fun v => is_bool v = true) (results r).
Proof.
  intros Hn.
  destruct (main_completes
              (pipeline_outcome BeautifulSoup str_of md max_retries envs worlds)
              done_at items w) as (r & w' & Hm & Hp & Hs & Hf).
  exists r, w'. split; [exact Hm |].
  assert (Ht : total r = len items).
  { unfold total, len. rewrite (Permutation_length Hp), length_imap. reflexivity. }
  split; [exact Ht |]. split; [unfold total; lia |]. split; [exact Hp |].
  rewrite Hp. apply Forall_forall. intros v Hv.
  apply list_elem_of_lookup in Hv as [i Hi].
  rewrite list_lookup_imap in Hi.
  destruct (items !! i) as [item |]; [| discriminate].
  injection Hi as <-. unfold recorded, pipeline_outcome.
  by apply extract_url_bool.
Qed.

Lemma main_report_counts_witness :
  1 <= MAX_RETRIES
  /\ exists r w',
       main (pipeline_outcome flat_parser flat_str_of identity_md MAX_RETRIES
               (fun i => if (i =? 0)%nat then recovering else (fun _ => offline))
               (fun _ => example_world))
         (fun i => (2 - i)%nat) targets example_world = (Ok r, w')
       /\ total r = len targets
       /\ success_count r + failure_count r = total r
       /\ results r
          ≡ₚ imap (fun i item =>
                     fst (extract_url flat_parser flat_str_of identity_md MAX_RETRIES
                            ((fun i => if (i =? 0)%nat then recovering else (fun _ => offline)) i)
                            (url item) (title item) ((fun _ => example_world) i))) targets
       /\ Forall (fun v => is_bool v = true) (results r).
Proof.
  assert (H1 : 1 <= MAX_RETRIES) by (unfold MAX_RETRIES; lia).
  split; [exact H1 |].
  exact (main_report_counts flat_parser flat_str_of identity_md MAX_RETRIES
           (fun i => if (i =? 0)%nat then recovering else (fun _ => offline))
           (fun _ => example_world) (fun i => (2 - i)%nat) targets example_world H1).
Defined.

(** * Further facts *)

(** ** The retry loop under any conditions *)

Section AnyRun.
Variable BeautifulSoup : str -> node.
Variable str_of : node -> str.
Variable md : str -> str.
Variable max_retries : Z.
Variable env : Z -> conditions.
Variables u t : str.

Local Abbreviation loop := (retry_loop BeautifulSoup str_of md max_retries env u t).

Lemma retry_loop_shape j : forall a w,
  Z.of_nat (a + j) = max_retries - 1 ->
  exists w' evs i b,
    loop (map Z.of_nat (seq a (S j))) w = (py_bool b, w')
    /\ events w' = events w ++ evs
    /\ schedule evs = failed_rounds (Z.of_nat a) i ++ [Attempt b]
    /\ (i <= j)%nat
    /\ (b = false -> i = j).
Proof.
  induction j as [| j IH]; intros a w Hn.
  - cbn [seq map retry_loop].
    destruct (attempt_outcome BeautifulSoup str_of md u t (env (Z.of_nat a)) w)
      as (r & w1 & -> & [(evs & He & Hq) _] & _).
    destruct r as [[] | e].
    + eexists _, (evs ++ [Log INFO (Processed t)]), 0%nat, true.
      split; [reflexivity |]. split; [simpl; rewrite He; by rewrite app_assoc |].
      split; [rewrite schedule_app, Hq; reflexivity |]. split; [lia | discriminate].
    + replace (Z.of_nat a <? max_retries - 1) with false
        by (symmetry; apply Z.ltb_ge; lia).
      eexists _, (evs ++ [Log ERROR (AttemptFailed (Z.of_nat a + 1) max_retries t e);
                          Log ERROR (RetriesExhausted t)]), 0%nat, false.
      split; [reflexivity |]. split; [simpl; rewrite He; by rewrite <- !app_assoc |].
      split; [rewrite schedule_app, Hq; reflexivity |]. split; [lia | reflexivity].
  - change (map Z.of_nat (seq a (S (S j))))
      with (Z.of_nat a :: map Z.of_nat (seq (S a) (S j))).
    cbn [retry_loop].
    destruct (attempt_outcome BeautifulSoup str_of md u t (env (Z.of_nat a)) w)
      as (r & w1 & -> & [(evs & He & Hq) _] & _).
    destruct r as [[] | e].
    + eexists _, (evs ++ [Log INFO (Processed t)]), 0%nat, true.
      split; [reflexivity |]. split; [simpl; rewrite He; by rewrite app_assoc |].
      split; [rewrite schedule_app, Hq; reflexivity |]. split; [lia | discriminate].
    + replace (Z.of_nat a <? max_retries - 1) with true
        by (symmetry; apply Z.ltb_lt; lia).
      edestruct (IH (S a)) as (w' & evs' & i & b & Hl & He' & Hq' & Hi & Hb); [lia |].
      rewrite Hl.
      exists w', (evs ++ Log ERROR (AttemptFailed (Z.of_nat a + 1) max_retries t e)
                      :: Sleep Backoff (2 ^ Z.of_nat a) :: evs'), (S i), b.
      split; [reflexivity |]. split.
      { rewrite He'. simpl. rewrite He, <- !app_assoc. reflexivity. }
      split.
      { rewrite schedule_app, Hq. cbn [app]. unfold schedule at 1.
        cbn [flat_map schedule_of app]. fold (schedule evs'). rewrite Hq'.
        cbn [failed_rounds app]. repeat f_equal. lia. }
      split; [lia |]. intros Hf. f_equal. by apply Hb.
Qed.

(** X1.  Whatever the browser and the disk do, a run of [extract_url] with
    [max_retries >= 1] is a number of failed attempts, each followed by
    its back-off, and then one last attempt without a back-off.  The value
    returned is the outcome of that last attempt, and it is [False] only
    when all [max_retries] attempts were made. *)
Theorem extract_url_run_shape (w : world) :
  1 <= max_retries ->
  exists w' evs j b,
    extract_url BeautifulSoup str_of md max_retries env u t w = (py_bool b, w')
    /\ events w' = events w ++ evs
    /\ schedule evs = failed_rounds 0 j ++ [Attempt b]
    /\ Z.of_nat j < max_retries
    /\ (b = false -> Z.of_nat j = max_retries - 1).
Proof.
  intros Hn. unfold extract_url, range.
  replace (Z.to_nat max_retries) with (S (Z.to_nat max_retries - 1)) by lia.
  destruct (retry_loop_shape (Z.to_nat max_retries - 1) 0 w)
    as (w' & evs & i & b & Hl & He & Hq & Hi & Hb); [lia |].
  exists w', evs, i, b. split; [exact Hl |]. split; [exact He |].
  split; [exact Hq |]. split; [lia |]. intros Hf. rewrite (Hb Hf). lia.
Qed.

Lemma total_seconds_rounds j : forall a s,
  0 <= a ->
  total_seconds
    (flat_map (fun st => match st with Wait d => [d] | Attempt _ => [] end)
       (failed_rounds a j ++ [Attempt s]))
  = 2 ^ (a + Z.of_nat j) - 2 ^ a.
Proof.
  induction j as [| j IH]; intros a s Ha.
  - simpl. rewrite Z.add_0_r. lia.
  - cbn [failed_rounds app flat_map total_seconds fold_right].
    change (fold_right Z.add 0 ?l) with (total_seconds l).
    rewrite IH by lia.
    replace (a + Z.of_nat (S j)) with (a + 1 + Z.of_nat j) by lia.
    rewrite (Z.pow_add_r 2 a 1) by lia. lia.
Qed.

(** X2.  Under any conditions [extract_url] makes at least one and at
    most [max_retries] attempts, and having made [n] attempts it has slept
    [2 ^ (n - 1) - 1] seconds of back-off in all, so less than
    [2 ^ (max_retries - 1)]. *)
Theorem extract_url_bounded (w : world) :
  1 <= max_retries ->
  exists evs,
    events (snd (extract_url BeautifulSoup str_of md max_retries env u t w))
    = events w ++ evs
    /\ 1 <= attempts_made evs <= max_retries
    /\ total_seconds (backoff_sleeps evs) = 2 ^ (attempts_made evs - 1) - 1
    /\ total_seconds (backoff_sleeps evs) < 2 ^ (max_retries - 1).
Proof.
  intros Hn. unfold extract_url, range.
  replace (Z.to_nat max_retries) with (S (Z.to_nat max_retries - 1)) by lia.
  destruct (retry_loop_shape (Z.to_nat max_retries - 1) 0 w)
    as (w' & evs & j & b & Hl & He & Hq & Hj & _); [lia |].
  exists evs. rewrite Hl. split; [exact He |].
  rewrite (attempts_of_rounds _ _ _ Hq).
  assert (Hs : total_seconds (backoff_sleeps evs) = 2 ^ Z.of_nat j - 1).
  { unfold backoff_sleeps. rewrite Hq, total_seconds_rounds by lia.
    rewrite Z.add_0_l. reflexivity. }
  split; [lia |]. split.
  - rewrite Hs. f_equal. f_equal. lia.
  - rewrite Hs.
    assert (2 ^ Z.of_nat j <= 2 ^ (max_retries - 1))
      by (apply Z.pow_le_mono_r; lia).
    lia.
Qed.
End AnyRun.

(** ** What a run does to the disk *)

Lemma touches_refl tgt fs : touches tgt fs fs.
Proof. split; [apply same_tree_refl | reflexivity]. Qed.


Lemma disk_record_event ev w : disk (record_event ev w) = disk w.
Proof. reflexivity. Qed.

Lemma range_bounds n k : k ∈ range n -> 0 <= k < n.
Proof.
  unfold range. rewrite list_elem_of_fmap. intros (i & -> & Hi).
  apply elem_of_seq in Hi. lia.
Qed.

Section DiskFacts.
Variable BeautifulSoup : str -> node.
Variable str_of : node -> str.
Variable md : str -> str.
Variable max_retries : Z.
Variable env : Z -> conditions.
Variables u t : str.

Local Abbreviation loop := (retry_loop BeautifulSoup str_of md max_retries env u t).
Local Abbreviation body c := (attempt_body BeautifulSoup str_of md c u t).

(** One attempt, by its outcome: it succeeds only with a page fetched and
    written in full, and when it fails the file at the output path is as
    before or was emptied by the open. *)
Lemma attempt_body_disk c w :
  match body c w with
  | (Ok _, w1) =>
      exists html target,
        page_source (browser c u) = Ok html /\ html <> []
        /\ resolve (disk w) (output_path t) = Ok target
        /\ files (disk w1) !! target
           = Some (page_markdown BeautifulSoup str_of md html)
        /\ touches (Some target) (disk w) (disk w1)
  | (Raise _, w1) =>
      touches (ok_part (resolve (disk w) (output_path t))) (disk w) (disk w1)
      /\ (fetch_ok (browser c u) = false -> disk w1 = disk w)
  end.
Proof.
  unfold attempt_body. unfold bind at 1.
  pose proof (fetch_html_result c u w) as Hf.
  assert (Hp : forall h, fst (_fetch_html c u w) = Ok (Some h) ->
                 page_source (browser c u) = Ok h).
  { intros h. unfold _fetch_html.
    destruct (browser c u) as [l n p q]; simpl.
    destruct l as [e0 |]; [discriminate |].
    destruct n as [e1 |], p as [h' | e2], q as [e3 |]; simpl; congruence. }
  destruct (_fetch_html c u w) as [[[[| ch h] |] | e] w1];
    destruct Hf as [Hok Hd]; simpl in Hp.
  - unfold raise. rewrite Hd. split; [apply touches_refl | reflexivity].
  - specialize (Hp (ch :: h) eq_refl).
    unfold _clean_html, _convert_to_markdown, bind at 1 2 3 4, logging, emit, ret.
    unfold _save_markdown, bind, aiofiles_open, file_write, logging, emit.
    unfold record_event. cbn [disk events]. rewrite Hd.
    destruct (open_fault c) as [e |].
    { split; [apply touches_refl | rewrite Hok; discriminate]. }
    destruct (resolve (disk w) (output_path t)) as [target | e] eqn:Hr.
    2: { split; [apply touches_refl | rewrite Hok; discriminate]. }
    destruct (write_fault c) as [e |]; cbn [disk files cwd dirs ok_part].
    + split; [| rewrite Hok; discriminate].
      split; [split; reflexivity |]. intros p Hne.
      apply lookup_insert_ne. congruence.
    + exists (ch :: h), target. split; [exact Hp |]. split; [discriminate |].
      split; [reflexivity |]. split; [apply lookup_insert_eq |].
      split; [split; reflexivity |]. intros p Hne. cbn [files].
      rewrite !lookup_insert_ne by congruence. reflexivity.
  - unfold raise. rewrite Hd. split; [apply touches_refl | reflexivity].
  - rewrite Hd. split; [apply touches_refl | reflexivity].
Qed.




Lemma retry_loop_true fs0 attempts : forall w w',
  same_tree fs0 (disk w) ->
  loop attempts w = (PyTrue, w') ->
  exists k html target,
    k ∈ attempts
    /\ page_source (browser (env k) u) = Ok html /\ html <> []
    /\ resolve fs0 (output_path t) = Ok target
    /\ files (disk w') !! target = Some (page_markdown BeautifulSoup str_of md html).
Proof.
  induction attempts as [| k rest IH]; intros w w' Ht; cbn [retry_loop];
    [discriminate |].
  pose proof (attempt_body_disk (env k) w) as Hb.
  destruct (body (env k) w) as [[[] | e] w1].
  - destruct Hb as (html & target & Hp & Hne & Hr & Hfile & _).
    intros [= <-]. exists k, html, target.
    split; [apply list_elem_of_here |]. split; [exact Hp |]. split; [exact Hne |].
    split; [| exact Hfile].
    pose proof (resolve_tree fs0 (disk w) (output_path t) Ht) as Ho.
    rewrite Hr in Ho. destruct (resolve fs0 (output_path t)); simpl in Ho; congruence.
  - destruct Hb as [[Hto _] _].
    destruct (k <? max_retries - 1); [| discriminate].
    intros Hl. apply IH in Hl as (k' & html & target & Hin & Hrest).
    + exists k', html, target. split; [by apply list_elem_of_further | exact Hrest].
    + rewrite !disk_record_event. eapply same_tree_trans; eassumption.
Qed.

(** X4.  When [extract_url] returns [True], the output file exists where
    the output path resolves and holds the Markdown of a non-empty page
    that the browser delivered during one of the attempts. *)
Theorem extract_url_true_means_written (w w' : world) :
  extract_url BeautifulSoup str_of md max_retries env u t w = (PyTrue, w') ->
  exists k html target,
    0 <= k < max_retries
    /\ page_source (browser (env k) u) = Ok html /\ html <> []
    /\ resolve (disk w) (output_path t) = Ok target
    /\ files (disk w') !! target = Some (page_markdown BeautifulSoup str_of md html).
Proof.
  intros H. apply (retry_loop_true (disk w)) in H as (k & html & target & Hin & Hrest);
    [| apply same_tree_refl].
  exists k, html, target. split; [by apply range_bounds | exact Hrest].
Qed.


End DiskFacts.

(** ** Events of a given kind, stage by stage *)

Section EventInvariant.
Variable P : list event -> Prop.
Hypothesis P_nil : P [].
Hypothesis P_app : forall a b, P a -> P b -> P (a ++ b).

Lemma adds_ret {A} (a : A) : adds P (ret a).
Proof. intros w. exists []. split; [by rewrite app_nil_r | exact P_nil]. Qed.

Lemma adds_raise {A} e : adds P (@raise A e).
Proof. intros w. exists []. split; [by rewrite app_nil_r | exact P_nil]. Qed.

Lemma adds_emit ev : P [ev] -> adds P (emit ev).
Proof. intros H w. exists [ev]. split; [reflexivity | exact H]. Qed.

Lemma adds_bind {A B} (c : M A) (k : A -> M B) :
  adds P c -> (forall a, adds P (k a)) -> adds P (bind c k).
Proof.
  intros Hc Hk w. unfold bind. destruct (Hc w) as (e1 & He1 & Hp1).
  destruct (c w) as [[a | e] w1]; simpl in *.
  - destruct (Hk a w1) as (e2 & He2 & Hp2). exists (e1 ++ e2).
    split; [rewrite He2, He1; by rewrite app_assoc | by apply P_app].
  - exists e1. auto.
Qed.

Lemma adds_raise_if o : adds P (raise_if o).
Proof. destruct o; [apply adds_raise | apply adds_ret]. Qed.

Lemma adds_aiofiles_open c p : adds P (aiofiles_open c p).
Proof.
  intros w. exists []. split; [| exact P_nil]. rewrite app_nil_r.
  unfold aiofiles_open. destruct (open_fault c); [reflexivity |].
  destruct (resolve (disk w) p); reflexivity.
Qed.

Lemma adds_file_write c target s : adds P (file_write c target s).
Proof.
  intros w. exists []. split; [| exact P_nil]. rewrite app_nil_r.
  unfold file_write. destruct (write_fault c); reflexivity.
Qed.

(** The stages after the fetch add log records only. *)
Hypothesis P_log : forall lvl r, P [Log lvl r].

Lemma adds_save_markdown c title s : adds P (_save_markdown c title s).
Proof.
  unfold _save_markdown. apply adds_bind; [apply adds_aiofiles_open |]. intros f.
  apply adds_bind; [apply adds_file_write |]. intros _.
  apply adds_emit, P_log.
Qed.

Lemma adds_after_fetch BeautifulSoup str_of md c title h :
  adds P (cleaned <- _clean_html BeautifulSoup str_of h ;;
          markdown <- _convert_to_markdown md cleaned ;;
          _save_markdown c title markdown).
Proof.
  apply adds_bind.
  { unfold _clean_html. apply adds_bind; [apply adds_emit, P_log |].
    intros _. apply adds_ret. }
  intros cleaned. apply adds_bind; [| intros markdown; apply adds_save_markdown].
  unfold _convert_to_markdown. apply adds_bind; [apply adds_emit, P_log |].
  intros _. apply adds_ret.
Qed.

Lemma adds_attempt_body BeautifulSoup str_of md c u title :
  adds P (_fetch_html c u) ->
  adds P (attempt_body BeautifulSoup str_of md c u title).
Proof.
  intros Hf. unfold attempt_body. apply adds_bind; [exact Hf |].
  intros [[| ch h] |]; [apply adds_raise | apply adds_after_fetch | apply adds_raise].
Qed.

Hypothesis P_sleep : forall site d, P [Sleep site d].

Lemma adds_retry_loop BeautifulSoup str_of md max_retries env u title attempts :
  (forall c, adds P (_fetch_html c u)) ->
  forall w, exists evs,
    events (snd (retry_loop BeautifulSoup str_of md max_retries env u title attempts w))
    = events w ++ evs
    /\ P evs.
Proof.
  intros Hf. induction attempts as [| k rest IH]; intros w; cbn [retry_loop].
  - exists []. split; [by rewrite app_nil_r | exact P_nil].
  - destruct (adds_attempt_body BeautifulSoup str_of md (env k) u title (Hf _) w)
      as (e1 & He1 & Hp1).
    destruct (attempt_body BeautifulSoup str_of md (env k) u title w)
      as [[[] | e] w1]; cbn [snd] in He1.
    + exists (e1 ++ [Log INFO (Processed title)]). split.
      * cbn [snd record_event events]. rewrite He1. by rewrite app_assoc.
      * apply P_app; [exact Hp1 | apply P_log].
    + destruct (k <? max_retries - 1).
      * destruct (IH (record_event (Sleep Backoff (2 ^ k))
                        (record_event
                           (Log ERROR (AttemptFailed (k + 1) max_retries title e)) w1)))
          as (e2 & He2 & Hp2).
        exists (e1 ++ ([Log ERROR (AttemptFailed (k + 1) max_retries title e)]
                       ++ [Sleep Backoff (2 ^ k)] ++ e2)).
        split.
        { rewrite He2. cbn [record_event events]. rewrite He1.
          rewrite <- !app_assoc. reflexivity. }
        apply P_app; [exact Hp1 |]. apply P_app; [apply P_log |].
        apply P_app; [apply P_sleep | exact Hp2].
      * exists (e1 ++ ([Log ERROR (AttemptFailed (k + 1) max_retries title e)]
                       ++ [Log ERROR (RetriesExhausted title)])).
        split.
        { cbn [snd record_event events]. rewrite He1.
          rewrite <- !app_assoc. reflexivity. }
        apply P_app; [exact Hp1 |]. apply P_app; apply P_log.
Qed.
End EventInvariant.

(** ** Browser sessions *)

Lemma sessions_closed_app a : forall o b,
  sessions_closed o a = true ->
  sessions_closed o (a ++ b) = sessions_closed false b.
Proof.
  induction a as [| ev a IH]; intros o b H.
  - destruct o; [discriminate | reflexivity].
  - destruct ev; cbn [sessions_closed app] in *;
      try (apply IH; exact H);
      apply andb_prop in H as [Ho Ha]; rewrite Ho; cbn [andb]; apply IH; exact Ha.
Qed.

Lemma sessions_closed_join a b :
  sessions_closed false a = true -> sessions_closed false b = true ->
  sessions_closed false (a ++ b) = true.
Proof. intros Ha Hb. by rewrite (sessions_closed_app a false b Ha). Qed.

Lemma fetch_html_sessions (c : conditions) (u : str) (w : world) :
  exists evs,
    events (snd (_fetch_html c u w)) = events w ++ evs
    /\ sessions_closed false evs = true.
Proof.
  unfold _fetch_html, driver_quit.
  destruct (browser c u) as [l n p q]; cbn [launch navigate page_source quit].
  destruct l as [e0 |]; [eexists [_]; split; reflexivity |].
  destruct n as [e1 |], p as [h | e2], q as [e3 |];
    (eexists; split;
     [cbn; unfold record_event; cbn [events]; rewrite <- ?app_assoc; reflexivity
     | reflexivity]).
Qed.

(** X6.  [_fetch_html] closes the browser it opened on every path: after
    the call either no session was launched, or one was launched and quit,
    also when the page could not be loaded or read, and when [quit] itself
    raises. *)
Theorem fetch_html_closes_browser (c : conditions) (u : str) (w : world) :
  exists evs,
    events (snd (_fetch_html c u w)) = events w ++ evs
    /\ sessions_closed false evs = true
    /\ (launch (browser c u) = None <-> BrowserLaunched u ∈ evs).
Proof.
  unfold _fetch_html, driver_quit.
  destruct (browser c u) as [l n p q]; cbn [launch navigate page_source quit].
  destruct l as [e0 |].
  - eexists [_]. split; [reflexivity |]. split; [reflexivity |].
    split; [discriminate |]. intros H. apply list_elem_of_singleton in H. discriminate.
  - destruct n as [e1 |], p as [h | e2], q as [e3 |];
      (eexists; split;
       [cbn; unfold record_event; cbn [events]; rewrite <- ?app_assoc; reflexivity |];
       split; [reflexivity |]; split; [intros _; apply list_elem_of_here | reflexivity]).
Qed.

(** X7.  Over a whole run of [extract_url], under any conditions and with
    any number of retries, browser sessions never overlap and none is left
    open: every launch is followed by its quit before the next attempt
    starts. *)
Theorem extract_url_closes_every_browser
    (BeautifulSoup : str -> node) (str_of : node -> str) (md : str -> str)
    (max_retries : Z) (env : Z -> conditions) (u t : str) (w : world) :
  exists evs,
    events (snd (extract_url BeautifulSoup str_of md max_retries env u t w))
    = events w ++ evs
    /\ sessions_closed false evs = true.
Proof.
  unfold extract_url.
  apply (adds_retry_loop (fun evs => sessions_closed false evs = true)).
  - reflexivity.
  - apply sessions_closed_join.
  - reflexivity.
  - reflexivity.
  - intros c w0. destruct (fetch_html_sessions c u w0) as (evs & He & Hs).
    exists evs. auto.
Qed.

(** ** The fetch stage, by outcome *)

(** X8.  [_fetch_html] returns a page exactly when every step of the
    session went through, and then it is the page source unchanged.  An
    exception of the launch, of the navigation or of reading the page
    never leaves the function (the result is [None]); the only exception
    that can leave it is the one [driver.quit()] raises. *)
Theorem fetch_html_outcome (c : conditions) (u : str) (w : world) :
  (forall h,
     fst (_fetch_html c u w) = Ok (Some h)
     <-> launch (browser c u) = None /\ navigate (browser c u) = None
         /\ page_source (browser c u) = Ok h /\ quit (browser c u) = None)
  /\ (forall e,
        fst (_fetch_html c u w) = Raise e
        <-> launch (browser c u) = None /\ quit (browser c u) = Some e).
Proof.
  unfold _fetch_html, driver_quit.
  destruct (browser c u) as [l n p q]; cbn [launch navigate page_source quit].
  destruct l as [e0 |].
  - split; intros x; (split; [discriminate | intros [H _]; discriminate H]).
  - destruct n as [e1 |], p as [h' | e2], q as [e3 |]; cbn;
      (split; intros x;
       (split;
        [ intros H; try discriminate H; injection H as <-; auto
        | intros H; decompose [and] H; try discriminate; congruence ])).
Qed.

(** ** Lines and white space *)

Lemma isspace_newline : isspace newline = true.
Proof. reflexivity. Qed.

Lemma rstrip_cons c s :
  rstrip (c :: s)
  = match rstrip s with
    | [] => if isspace c then [] else [c]
    | r => c :: r
    end.
Proof. reflexivity. Qed.

Lemma rstrip_head s a r : rstrip s = a :: r -> exists s', s = a :: s'.
Proof.
  destruct s as [| c s]; [discriminate |]. rewrite rstrip_cons.
  destruct (rstrip s); [destruct (isspace c) |]; intros [= <- <-]; eauto.
Qed.

Lemma rstrip_idem s : rstrip (rstrip s) = rstrip s.
Proof.
  induction s as [| c s IH]; [reflexivity |]. rewrite rstrip_cons.
  destruct (rstrip s) as [| d r] eqn:Hr.
  - destruct (isspace c) eqn:Hc; [reflexivity |]. simpl. by rewrite Hc.
  - rewrite rstrip_cons, IH. reflexivity.
Qed.

Lemma rstrip_tail c l : rstrip (c :: l) = c :: l -> rstrip l = l.
Proof.
  rewrite rstrip_cons. destruct (rstrip l) as [| d r].
  - destruct (isspace c); intros [= <-]; reflexivity.
  - intros [= <-]. reflexivity.
Qed.

Lemma rstrip_keeps_head c s : isspace c = false -> exists r, rstrip (c :: s) = c :: r.
Proof.
  intros Hc. rewrite rstrip_cons. destruct (rstrip s); [rewrite Hc |]; eauto.
Qed.

Lemma lstrip_head s :
  lstrip s = [] \/ exists c r, lstrip s = c :: r /\ isspace c = false.
Proof.
  induction s as [| c s IH]; [by left |]. simpl.
  destruct (isspace c) eqn:Hc; [exact IH | right; eauto].
Qed.

Lemma lstrip_fixed c r : isspace c = false -> lstrip (c :: r) = c :: r.
Proof. intros Hc. simpl. by rewrite Hc. Qed.

Lemma strip_strip s : strip (strip s) = strip s.
Proof.
  unfold strip. destruct (lstrip_head s) as [-> | (c & r & -> & Hc)]; [reflexivity |].
  destruct (rstrip_keeps_head c r Hc) as [r' Hr]. rewrite Hr.
  rewrite (lstrip_fixed c r' Hc), <- Hr. apply rstrip_idem.
Qed.

Lemma visible_app a b : visible (a ++ b) = visible a ++ visible b.
Proof. apply List.filter_app. Qed.

Lemma visible_lstrip s : visible (lstrip s) = visible s.
Proof.
  induction s as [| c s IH]; [reflexivity |]. simpl.
  destruct (isspace c) eqn:Hc; simpl; [exact IH | by rewrite Hc].
Qed.

Lemma visible_cons c s :
  visible (c :: s) = (if isspace c then [] else [c]) ++ visible s.
Proof. unfold visible. simpl. destruct (isspace c); reflexivity. Qed.

Lemma visible_rstrip s : visible (rstrip s) = visible s.
Proof.
  induction s as [| c s IH]; [reflexivity |]. rewrite rstrip_cons.
  rewrite (visible_cons c s), <- IH.
  destruct (rstrip s) as [| d r]; [| apply visible_cons].
  destruct (isspace c) eqn:Hc; [reflexivity |].
  rewrite visible_cons, Hc. reflexivity.
Qed.

Lemma split_nonempty sep s : split sep s <> [].
Proof.
  destruct s as [| c s]; [discriminate |]. simpl.
  case_bool_decide; [discriminate |]. destruct (split sep s); discriminate.
Qed.

Lemma split_cons sep c s :
  split sep (c :: s)
  = if bool_decide (c = sep) then [] :: split sep s
    else match split sep s with
         | l :: ls => (c :: l) :: ls
         | [] => [[c]]
         end.
Proof. reflexivity. Qed.

(** [sep.join(s.split(sep)) == s]. *)
Lemma join_split sep s : join [sep] (split sep s) = s.
Proof.
  induction s as [| c s IH]; [reflexivity |]. rewrite split_cons.
  pose proof (split_nonempty sep s) as Hne.
  case_bool_decide as Hc.
  - subst c. destruct (split sep s) as [| l ls] eqn:Hs; [done |].
    cbn [join]. change (join [sep] (l :: ls)) with (join [sep] (l :: ls)).
    simpl. f_equal. exact IH.
  - destruct (split sep s) as [| l ls]; [done |].
    destruct ls as [| l2 ls]; simpl in *; by rewrite IH.
Qed.

Lemma split_lines_clean sep s : Forall (fun l => sep ∉ l) (split sep s).
Proof.
  induction s as [| c s IH]; [repeat constructor; apply not_elem_of_nil |].
  rewrite split_cons. case_bool_decide as Hc.
  - constructor; [apply not_elem_of_nil | exact IH].
  - destruct (split sep s) as [| l ls].
    + repeat constructor. intros H. apply list_elem_of_singleton in H. congruence.
    + inversion IH as [| ? ? Hl Hls]; subst. constructor; [| exact Hls].
      intros H. apply elem_of_cons in H as [H | H]; [congruence | by apply Hl].
Qed.

Lemma split_no_sep sep s : sep ∉ s -> split sep s = [s].
Proof.
  induction s as [| c s IH]; intros H; [reflexivity |]. rewrite split_cons.
  apply not_elem_of_cons in H as [Hc Hs].
  rewrite bool_decide_false by congruence. by rewrite IH.
Qed.

Lemma split_join sep ls :
  ls <> [] -> Forall (fun l => sep ∉ l) ls -> split sep (join [sep] ls) = ls.
Proof.
  induction ls as [| l ls IH]; intros Hne Hall; [done |].
  inversion Hall as [| ? ? Hl Hls]; subst.
  destruct ls as [| l2 ls].
  - simpl. by apply split_no_sep.
  - change (join [sep] (l :: l2 :: ls)) with (l ++ sep :: join [sep] (l2 :: ls)).
    specialize (IH ltac:(discriminate) Hls).
    clear Hall Hne. generalize dependent (join [sep] (l2 :: ls)). intros J IH.
    induction l as [| c l IHl].
    + cbn [app]. rewrite split_cons, bool_decide_true by reflexivity. by rewrite IH.
    + apply not_elem_of_cons in Hl as [Hc Hl].
      change ((c :: l) ++ sep :: J) with (c :: (l ++ sep :: J)).
      rewrite split_cons, bool_decide_false by congruence.
      rewrite (IHl Hl). reflexivity.
Qed.

Lemma rstrip_subset sep l : sep ∉ l -> sep ∉ rstrip l.
Proof.
  induction l as [| c l IH]; intros H; [exact H |].
  apply not_elem_of_cons in H as [Hc Hl]. rewrite rstrip_cons.
  destruct (rstrip l) as [| d r] eqn:Hr.
  - destruct (isspace c); [apply not_elem_of_nil |].
    intros H. apply list_elem_of_singleton in H. congruence.
  - intros H. apply elem_of_cons in H as [H | H]; [congruence | by apply IH].
Qed.

Lemma visible_join_lines ls :
  visible (join [newline] ls) = concat (map visible ls).
Proof.
  induction ls as [| l ls IH]; [reflexivity |].
  destruct ls as [| l2 ls]; [simpl; by rewrite app_nil_r |].
  change (join [newline] (l :: l2 :: ls))
    with (l ++ [newline] ++ join [newline] (l2 :: ls)).
  rewrite !visible_app, IH. reflexivity.
Qed.

Lemma visible_tidy_lines s : visible (tidy_lines s) = visible s.
Proof.
  unfold tidy_lines, strip. rewrite visible_rstrip, visible_lstrip.
  rewrite visible_join_lines, map_map.
  rewrite (map_ext _ visible) by (intros l; apply visible_rstrip).
  rewrite <- visible_join_lines, join_split. reflexivity.
Qed.

Lemma lines_lstrip s :
  Forall (fun l => rstrip l = l) (split newline s) ->
  Forall (fun l => rstrip l = l) (split newline (lstrip s)).
Proof.
  induction s as [| c s IH]; intros H; [exact H |]. simpl lstrip.
  destruct (isspace c); [| exact H]. apply IH.
  rewrite split_cons in H. case_bool_decide.
  - by inversion H.
  - pose proof (split_nonempty newline s) as Hne.
    destruct (split newline s) as [| l ls]; [done |].
    inversion H as [| ? ? Hl Hls]; subst. constructor; [| exact Hls].
    by apply (rstrip_tail c).
Qed.

Lemma lines_rstrip s :
  Forall (fun l => rstrip l = l) (split newline s) ->
  Forall (fun l => rstrip l = l) (split newline (rstrip s)).
Proof.
  induction s as [| c s IH]; intros H; [exact H |].
  pose proof (split_nonempty newline s) as Hne.
  rewrite rstrip_cons. rewrite split_cons in H.
  destruct (rstrip s) as [| d r] eqn:Hr.
  - destruct (isspace c) eqn:Hc; [repeat constructor |].
    rewrite split_cons. rewrite bool_decide_false.
    + repeat constructor. simpl. by rewrite Hc.
    + intros ->. by rewrite isspace_newline in Hc.
  - rewrite split_cons. case_bool_decide as Hnl.
    + constructor; [reflexivity |]. apply IH. by inversion H.
    + destruct (split newline s) as [| l ls] eqn:Hs; [done |].
      inversion H as [| ? ? Hl Hls]; subst.
      specialize (IH (Forall_cons_2 _ _ _ (rstrip_tail c l Hl) Hls)).
      pose proof (split_nonempty newline (d :: r)) as Hne'.
      destruct (split newline (d :: r)) as [| l' ls'] eqn:Hs'; [done |].
      inversion IH as [| ? ? Hl' Hls']; subst. constructor; [| exact Hls'].
      destruct l' as [| x l'].
      * (* the stripped text goes on with a newline, and so did the text *)
        rewrite split_cons in Hs'. case_bool_decide as Hd.
        -- subst d. destruct (rstrip_head s newline r Hr) as [s' ->].
           rewrite split_cons, bool_decide_true in Hs by reflexivity.
           injection Hs as <- _. exact Hl.
        -- destruct (split newline r); discriminate.
      * rewrite rstrip_cons, Hl'. reflexivity.
Qed.

Lemma tidy_lines_normal s :
  strip (tidy_lines s) = tidy_lines s
  /\ Forall (fun l => rstrip l = l) (split newline (tidy_lines s)).
Proof.
  split; [apply strip_strip |].
  unfold tidy_lines, strip. apply lines_rstrip, lines_lstrip.
  rewrite split_join.
  - apply Forall_forall. intros l Hl. apply list_elem_of_fmap in Hl as (l0 & -> & _).
    apply rstrip_idem.
  - pose proof (split_nonempty newline s). destruct (split newline s); [done | discriminate].
  - apply Forall_forall. intros l Hl. apply list_elem_of_fmap in Hl as (l0 & -> & Hin).
    apply rstrip_subset.
    pose proof (split_lines_clean newline s) as Hc.
    rewrite Forall_forall in Hc. by apply Hc.
Qed.

Lemma tidy_lines_fixed s :
  strip s = s -> Forall (fun l => rstrip l = l) (split newline s) -> tidy_lines s = s.
Proof.
  intros Hs Hl. unfold tidy_lines.
  replace (map rstrip (split newline s)) with (split newline s).
  - by rewrite join_split.
  - induction Hl as [| l ls Hl _ IH]; [reflexivity |]. simpl. by rewrite Hl, <- IH.
Qed.

(** X9.  The clean-up of [_convert_to_markdown] only deletes white
    space: the characters of the converter's output that are not white
    space all reach the result, in the same order, and nothing is added. *)
Theorem convert_to_markdown_keeps_text (md : str -> str) (html : str) (w : world) :
  exists out,
    fst (_convert_to_markdown md html w) = Ok out
    /\ visible out = visible (md html).
Proof.
  exists (tidy_lines (md html)). split; [reflexivity | apply visible_tidy_lines].
Qed.

(** X10.  The text [_convert_to_markdown] returns has no white space at
    its start or end, and none of its lines ends in white space. *)
Theorem convert_to_markdown_trimmed (md : str -> str) (html : str) (w : world) :
  exists out,
    fst (_convert_to_markdown md html w) = Ok out
    /\ strip out = out
    /\ Forall (fun l => rstrip l = l) (split newline out).
Proof.
  exists (tidy_lines (md html)). split; [reflexivity | apply tidy_lines_normal].
Qed.

(** X11.  The clean-up of [_convert_to_markdown] is idempotent: run again
    on a text it produced, with a converter that changes nothing, it
    returns that text. *)
Theorem convert_to_markdown_cleanup_idempotent
    (md : str -> str) (html : str) (w w' : world) :
  exists out,
    fst (_convert_to_markdown md html w) = Ok out
    /\ fst (_convert_to_markdown (fun s => s) out w') = Ok out.
Proof.
  exists (tidy_lines (md html)). split; [reflexivity |].
  change (Ok (tidy_lines (tidy_lines (md html))) = Ok (tidy_lines (md html))).
  f_equal. destruct (tidy_lines_normal (md html)) as [Hs Hl].
  by apply tidy_lines_fixed.
Qed.

(** ** Where the file goes *)

Lemma split_last_snoc {A} (l : list A) (x : A) : split_last (l ++ [x]) = Some (l, x).
Proof. unfold split_last. rewrite rev_app_distr. simpl. by rewrite rev_involutive. Qed.

Lemma split_last_Some {A} (l d : list A) (x : A) :
  split_last l = Some (d, x) -> l = d ++ [x].
Proof.
  unfold split_last. destruct (rev l) as [| y r] eqn:Hr; [discriminate |].
  intros [= <- <-]. rewrite <- (rev_involutive l), Hr. reflexivity.
Qed.

Lemma file_name_kept t : keep_part (file_name t) = true.
Proof.
  unfold keep_part, file_name.
  rewrite !bool_decide_false; [reflexivity | |].
  - intros H. apply (f_equal length) in H. rewrite length_app in H. simpl in H. lia.
  - intros H. apply (f_equal length) in H. rewrite length_app in H. simpl in H. lia.
Qed.

Lemma file_name_not_dotdot t : file_name t <> py "..".
Proof.
  intros H. apply (f_equal length) in H. unfold file_name in H.
  rewrite length_app in H. simpl in H. lia.
Qed.

Lemma file_name_plain t : plain t -> slash ∉ file_name t.
Proof.
  unfold plain, file_name. intros Ht H. apply elem_of_app in H as [H | H]; [by apply Ht |].
  vm_compute in H. repeat (apply elem_of_cons in H as [H | H]; [discriminate |]).
  by apply elem_of_nil in H.
Qed.

(** The path of a title without a slash: the output directory, then the
    file. *)
Lemma output_path_plain t :
  plain t -> output_path t = {| anchored := false; parts := [py "output"; file_name t] |}.
Proof.
  intros Ht. pose proof (file_name_plain t Ht) as Hn.
  unfold output_path, joinpath, parse_path. fold (file_name t).
  rewrite (split_no_sep slash (file_name t) Hn).
  cbn [List.filter]. rewrite file_name_kept.
  assert (Ha : match file_name t with
               | c :: _ => bool_decide (c = slash)
               | [] => false
               end = false).
  { destruct (file_name t) as [| c r]; [reflexivity |].
    apply bool_decide_false. intros ->. apply Hn. apply list_elem_of_here. }
  cbn [anchored parts]. rewrite Ha. reflexivity.
Qed.

Lemma resolve_plain fs t :
  plain t ->
  resolve fs (output_path t)
  = if bool_decide (cwd fs ++ [py "output"] ∈ dirs fs)
    then if bool_decide ((cwd fs ++ [py "output"]) ++ [file_name t] ∈ dirs fs)
         then Raise IsADirectoryError
         else Ok ((cwd fs ++ [py "output"]) ++ [file_name t])
    else if bool_decide (is_Some (files fs !! (cwd fs ++ [py "output"])))
         then Raise NotADirectoryError
         else Raise FileNotFoundError.
Proof.
  intros Ht. rewrite (output_path_plain t Ht). unfold resolve.
  change (split_last (parts {| anchored := false; parts := [py "output"; file_name t] |}))
    with (Some ([py "output"], file_name t)).
  cbn [anchored walk].
  rewrite (bool_decide_false (py "output" = py "..")) by discriminate.
  case_bool_decide; [| case_bool_decide; reflexivity].
  rewrite (bool_decide_false (file_name t = py "..")) by apply file_name_not_dotdot.
  reflexivity.
Qed.

Lemma output_root_exists fs :
  cwd fs ++ [py "output"] ∈ dirs fs -> output_root fs = Ok (cwd fs ++ [py "output"]).
Proof.
  intros H. unfold output_root, resolve_dir.
  change (parse_path OUTPUT_DIR) with {| anchored := false; parts := [py "output"] |}.
  cbn [anchored parts walk].
  rewrite (bool_decide_false (py "output" = py "..")) by discriminate.
  by rewrite bool_decide_true.
Qed.

(** X12.  A title without a slash cannot leave the output directory: when
    the directory exists and the operating system refuses nothing,
    [_save_markdown] succeeds and the file it writes is
    [OUTPUT_DIR/<title>.md], inside the output root, with the content
    given. *)
Theorem save_markdown_plain_title_stays_inside
    (c : conditions) (t content : str) (w : world) :
  plain t ->
  cwd (disk w) ++ [py "output"] ∈ dirs (disk w) ->
  (cwd (disk w) ++ [py "output"]) ++ [file_name t] ∉ dirs (disk w) ->
  open_fault c = None ->
  write_fault c = None ->
  exists w',
    _save_markdown c t content w = (Ok tt, w')
    /\ files (disk w') !! ((cwd (disk w) ++ [py "output"]) ++ [file_name t])
       = Some content
    /\ inside_root (disk w) ((cwd (disk w) ++ [py "output"]) ++ [file_name t]) = true.
Proof.
  intros Ht Hroot Hfree Ho Hw.
  unfold _save_markdown, bind, aiofiles_open, file_write.
  rewrite Ho, (resolve_plain _ t Ht), Hw.
  rewrite bool_decide_true by exact Hroot.
  rewrite bool_decide_false by exact Hfree.
  eexists. split; [reflexivity |]. split; [apply lookup_insert_eq |].
  unfold inside_root. rewrite (output_root_exists _ Hroot).
  apply bool_decide_true. by apply prefix_app_r.
Qed.

(** X13.  Two different titles without a slash never share a file:
    whatever [_save_markdown] does for one of them, with or without
    success, the file of the other is as it was. *)
Theorem save_markdown_titles_do_not_collide
    (c : conditions) (t1 t2 content : str) (w : world) :
  plain t1 -> plain t2 -> t1 <> t2 ->
  files (disk (snd (_save_markdown c t2 content w)))
    !! ((cwd (disk w) ++ [py "output"]) ++ [file_name t1])
  = files (disk w) !! ((cwd (disk w) ++ [py "output"]) ++ [file_name t1]).
Proof.
  intros H1 H2 Hne.
  unfold _save_markdown, bind, aiofiles_open, file_write.
  destruct (open_fault c); [reflexivity |].
  rewrite (resolve_plain _ t2 H2).
  repeat case_bool_decide; try reflexivity.
  assert (Hd : (cwd (disk w) ++ [py "output"]) ++ [file_name t2]
               <> (cwd (disk w) ++ [py "output"]) ++ [file_name t1]).
  { intros Heq. apply app_inv_head in Heq. injection Heq as Heq.
    unfold file_name in Heq. apply app_inv_tail in Heq. congruence. }
  destruct (write_fault c); unfold logging, emit, record_event;
    cbn [snd disk files];
    rewrite ?lookup_insert_ne by exact Hd; reflexivity.
Qed.

(** X14.  Saving again under the same title replaces the file: after two
    successful calls the disk is the one a single call with the second
    content would have left, and the file holds the second content. *)
Theorem save_markdown_overwrites
    (c1 c2 : conditions) (t s1 s2 : str) (w w1 w2 : world) :
  _save_markdown c1 t s1 w = (Ok tt, w1) ->
  _save_markdown c2 t s2 w1 = (Ok tt, w2) ->
  exists target,
    resolve (disk w) (output_path t) = Ok target
    /\ files (disk w2) !! target = Some s2
    /\ disk w2 = disk (snd (_save_markdown c2 t s2 w)).
Proof.
  unfold _save_markdown, bind, aiofiles_open, file_write.
  destruct (open_fault c1); [discriminate |].
  destruct (resolve (disk w) (output_path t)) as [target | e] eqn:Hr; [| discriminate].
  destruct (write_fault c1); [discriminate |].
  unfold logging, emit, record_event.
  intros [= <-]. cbn [disk events].
  destruct (open_fault c2); [discriminate |].
  pose proof (resolve_tree (disk w)
                {| cwd := cwd (disk w); dirs := dirs (disk w);
                   files := <[target:=s1]> (<[target:=[]]> (files (disk w))) |}
                (output_path t) (conj eq_refl eq_refl)) as Hsame.
  rewrite Hr in Hsame.
  set (fs1 := {| cwd := cwd (disk w); dirs := dirs (disk w);
                 files := <[target:=s1]> (<[target:=[]]> (files (disk w))) |}) in *.
  destruct (resolve fs1 (output_path t)) as [target' | e]; simpl in Hsame;
    [| discriminate].
  injection Hsame as ->. subst fs1.
  destruct (write_fault c2); [discriminate |].
  intros [= <-]. exists target. split; [reflexivity |].
  unfold logging, emit, record_event.
  cbn [snd disk files cwd dirs]. split; [apply lookup_insert_eq |].
  f_equal. by rewrite !insert_insert_eq.
Qed.

Lemma split_app_last sep a b :
  sep ∉ b ->
  exists ls l,
    split sep a = ls ++ [l]
    /\ split sep (a ++ b) = ls ++ [l ++ b]
    /\ (a = l \/ exists pre, a = pre ++ sep :: l).
Proof.
  intros Hb. induction a as [| c a (ls & l & Ha & Hab & Hs)].
  - exists [], []. simpl. rewrite (split_no_sep sep b Hb). auto.
  - change ((c :: a) ++ b) with (c :: (a ++ b)). rewrite !split_cons, Ha, Hab.
    case_bool_decide as Hc.
    + exists ([] :: ls), l. split; [reflexivity |]. split; [reflexivity |]. right.
      subst c. destruct Hs as [-> | [pre ->]]; [by exists [] | by exists (sep :: pre)].
    + destruct ls as [| l0 ls].
      * exists [], (c :: l). split; [reflexivity |]. split; [reflexivity |]. left.
        (* without a separator the only line is the whole text *)
        pose proof (join_split sep a) as Hj. rewrite Ha in Hj. simpl in Hj.
        by rewrite Hj.
      * exists ((c :: l0) :: ls), l. split; [reflexivity |]. split; [reflexivity |].
        right. destruct Hs as [-> | [pre ->]]; [| by exists (c :: pre)].
        (* a text that is its own last line has no line before it *)
        pose proof (split_lines_clean sep l) as Hcl. rewrite Ha in Hcl.
        apply Forall_app in Hcl as [_ Hcl]. inversion Hcl as [| ? ? Hl _]; subst.
        rewrite (split_no_sep sep l Hl) in Ha.
        apply (f_equal length) in Ha. rewrite length_app in Ha. simpl in Ha. lia.
Qed.

Lemma filter_snoc_kept {A} (f : A -> bool) (l : list A) (x : A) :
  f x = true -> List.filter f (l ++ [x]) = List.filter f l ++ [x].
Proof. intros H. rewrite List.filter_app. simpl. by rewrite H. Qed.

Lemma output_path_last t :
  exists d stem,
    parts (output_path t) = d ++ [file_name stem]
    /\ (slash ∉ stem)
    /\ (t = stem \/ exists pre, t = pre ++ slash :: stem).
Proof.
  destruct (split_app_last slash t (py ".md")) as (ls & l & Ha & Hab & Hs).
  { vm_compute. intros H.
    repeat (apply elem_of_cons in H as [H | H]; [discriminate |]).
    by apply elem_of_nil in H. }
  assert (Hl : slash ∉ l).
  { pose proof (split_lines_clean slash t) as Hc. rewrite Ha in Hc.
    apply Forall_app in Hc as [_ Hc]. by inversion Hc. }
  assert (Hp : parts (parse_path (t ++ py ".md"))
               = List.filter keep_part ls ++ [file_name l]).
  { unfold parse_path. cbn [parts]. rewrite Hab.
    apply filter_snoc_kept, file_name_kept. }
  unfold output_path, joinpath.
  destruct (anchored (parse_path (t ++ py ".md"))).
  - exists (List.filter keep_part ls), l. auto.
  - exists (parts (parse_path OUTPUT_DIR) ++ List.filter keep_part ls), l.
    cbn [parts]. rewrite Hp, app_assoc. auto.
Qed.

(** X15.  Whatever the title, slashes and dots included, the file that
    [_save_markdown] opens has a name that ends in [.md]: the name is the
    part of the title after its last slash (the whole title when it has
    none), followed by the extension. *)
Theorem save_markdown_file_has_extension (fs : filesystem) (t : str) (target : list str) :
  resolve fs (output_path t) = Ok target ->
  exists d stem,
    target = d ++ [stem ++ py ".md"]
    /\ (slash ∉ stem)
    /\ (t = stem \/ exists pre, t = pre ++ slash :: stem).
Proof.
  intros Hr. unfold resolve in Hr.
  destruct (output_path_last t) as (d0 & stem & Hp & Hl & Hs).
  rewrite Hp, split_last_snoc in Hr.
  destruct (walk fs _ d0) as [d | e]; [| discriminate].
  repeat case_bool_decide; try discriminate.
  injection Hr as <-. exists d, stem. auto.
Qed.

(** ** The report of the pool *)

(** X16.  The report does not depend on the order in which the futures
    complete: for any two schedules [main] records the same outcomes up to
    order and prints the same counts. *)
Theorem main_report_order_independent
    (outcome : nat -> TargetUrl -> result pyval) (done_at1 done_at2 : nat -> nat)
    (items : list TargetUrl) (w : world) :
  exists r1 r2 w1 w2,
    main outcome done_at1 items w = (Ok r1, w1)
    /\ main outcome done_at2 items w = (Ok r2, w2)
    /\ results r1 ≡ₚ results r2
    /\ success_count r1 = success_count r2
    /\ failure_count r1 = failure_count r2.
Proof.
  destruct (main_completes outcome done_at1 items w) as (r1 & w1 & H1 & Hp1 & Hs1 & Hf1).
  destruct (main_completes outcome done_at2 items w) as (r2 & w2 & H2 & Hp2 & Hs2 & Hf2).
  exists r1, r2, w1, w2. split; [exact H1 |]. split; [exact H2 |].
  assert (Hp : results r1 ≡ₚ results r2) by (by rewrite Hp1, Hp2).
  assert (Hs : success_count r1 = success_count r2).
  { rewrite Hs1, Hs2. unfold len. by rewrite (filter_length_perm is_True _ _ Hp). }
  split; [exact Hp |]. split; [exact Hs |].
  rewrite Hf1, Hf2, Hs. unfold len. by rewrite (Permutation_length Hp).
Qed.

(** X17.  With [max_retries <= 0] no attempt is ever made, every future
    holds [None], and since [main] counts only [True] as a success it
    reports every target as failed. *)
Theorem main_without_retries_reports_all_failed
    (BeautifulSoup : str -> node) (str_of : node -> str) (md : str -> str)
    (max_retries : Z) (envs : nat -> Z -> conditions) (worlds : nat -> world)
    (done_at : nat -> nat) (items : list TargetUrl) (w : world) :
  max_retries <= 0 ->
  exists r w',
    main (pipeline_outcome BeautifulSoup str_of md max_retries envs worlds)
      done_at items w = (Ok r, w')
    /\ Forall (fun v => v = PyNone) (results r)
    /\ success_count r = 0
    /\ failure_count r = len items.
Proof.
  intros Hn.
  destruct (main_completes
              (pipeline_outcome BeautifulSoup str_of md max_retries envs worlds)
              done_at items w) as (r & w' & Hm & Hp & Hs & Hf).
  exists r, w'. split; [exact Hm |].
  assert (Hall : Forall (fun v => v = PyNone) (results r)).
  { rewrite Hp. apply Forall_forall. intros v Hv.
    apply list_elem_of_lookup in Hv as [i Hi]. rewrite list_lookup_imap in Hi.
    destruct (items !! i) as [item |]; [| discriminate]. injection Hi as <-.
    unfold recorded, pipeline_outcome. by rewrite extract_url_none. }
  assert (Hz : success_count r = 0).
  { rewrite Hs. unfold len. clear -Hall.
    induction Hall as [| v l -> _ IH]; [reflexivity | exact IH]. }
  split; [exact Hall |]. split; [exact Hz |].
  rewrite Hf, Hz. unfold len. rewrite (Permutation_length Hp), length_imap. lia.
Qed.

Section PoolReports.
Variable outcome : nat -> TargetUrl -> result pyval.
Variable done_at : nat -> nat.

Lemma exception_titles_app a b :
  exception_titles (a ++ b) = exception_titles a ++ exception_titles b.
Proof. apply flat_map_app. Qed.

Lemma collect_reports d acc k w :
  exists evs,
    events (snd (collect outcome d acc k w)) = events w ++ evs
    /\ exception_titles evs = raised_at outcome d k.
Proof.
  unfold collect, dict_get, raised_at, raised_title, bind, try_except, lift.
  destruct (d !! k) as [item |].
  - cbn. destruct (outcome k item) as [v | e]; cbn.
    + exists []. by rewrite app_nil_r.
    + eexists [_]. split; reflexivity.
  - exists []. cbn. by rewrite app_nil_r.
Qed.

Lemma for_each_reports d fs : forall acc w,
  Forall (fun k => is_Some (d !! k)) fs ->
  exists evs,
    events (snd (for_each outcome d acc fs w)) = events w ++ evs
    /\ exception_titles evs = flat_map (raised_at outcome d) fs.
Proof.
  induction fs as [| k fs IH]; intros acc w Hall.
  - exists []. simpl. by rewrite app_nil_r.
  - inversion Hall as [| ? ? Hk Hfs]; subst.
    destruct (collect_reports d acc k w) as (e1 & He1 & Ht1).
    destruct (collect_appends outcome d acc k w Hk) as (w1 & Hc).
    rewrite Hc in He1. cbn [snd] in He1.
    destruct (IH (acc ++ [recorded_at outcome d k]) w1 Hfs) as (e2 & He2 & Ht2).
    exists (e1 ++ e2). cbn [for_each]. unfold bind at 1. rewrite Hc. split.
    + rewrite He2, He1. by rewrite app_assoc.
    + rewrite exception_titles_app, Ht1, Ht2. reflexivity.
Qed.

Lemma raised_in_order (items : list TargetUrl) :
  flat_map (raised_at outcome (future_to_url items)) (seq 0 (length items))
  = concat (imap (raised_title outcome) items).
Proof.
  rewrite flat_map_concat_map. f_equal.
  apply list_eq. intros i.
  rewrite list_lookup_fmap, list_lookup_imap. unfold future_to_url.
  destruct (decide (i < length items)%nat) as [Hlt | Hge].
  - rewrite lookup_seq_lt by exact Hlt. simpl.
    destruct (lookup_lt_is_Some_2 items i Hlt) as [item Hitem].
    rewrite Hitem. simpl. unfold raised_at.
    by rewrite lookup_map_seq_0, Hitem.
  - rewrite lookup_seq_ge by lia. rewrite lookup_ge_None_2 by lia. reflexivity.
Qed.

(** X18.  [main] reports every exception of a future and nothing else as
    one: the titles in its [Exception for ...] records are, up to order,
    the titles of the targets whose future raised, each once. *)
Theorem main_reports_each_exception (items : list TargetUrl) (w : world) :
  exists evs,
    events (snd (main outcome done_at items w)) = events w ++ evs
    /\ exception_titles evs ≡ₚ concat (imap (raised_title outcome) items).
Proof.
  unfold main. unfold bind at 1. cbn [logging emit].
  set (d := future_to_url items).
  set (w0 := record_event _ w).
  assert (Hkeys : Forall (fun k => is_Some (d !! k)) (as_completed done_at (dict_keys d))).
  { apply Forall_forall. intros k Hk. unfold d in Hk |- *.
    rewrite as_completed_perm, dict_keys_perm in Hk.
    apply elem_of_seq in Hk. unfold future_to_url.
    rewrite lookup_map_seq_0. apply lookup_lt_is_Some_2. lia. }
  destruct (for_each_reports d _ [] w0 Hkeys) as (evs & He & Ht).
  destruct (for_each_appends outcome d _ [] w0 Hkeys) as (w1 & Hf).
  rewrite Hf in He. cbn [snd] in He.
  unfold bind at 1. rewrite Hf.
  eexists (_ :: evs ++ [_; _; _; _; _]). split.
  - cbn. unfold record_event. cbn [events]. rewrite He. subst w0. cbn [events record_event].
    rewrite <- !app_assoc. reflexivity.
  - change (exception_titles (?x :: ?l)) with (exception_titles [x] ++ exception_titles l).
    rewrite exception_titles_app, Ht. cbn [exception_titles flat_map app].
    rewrite app_nil_r. unfold d.
    rewrite as_completed_perm, dict_keys_perm. by rewrite raised_in_order.
Qed.
End PoolReports.

(** ** What the sanitizer removes *)

Lemma subtree_descendants n : subtree n = n :: descendants n.
Proof. destruct n; reflexivity. Qed.

Lemma elem_of_flat_map_subtree (x : node) (cs : list node) :
  x ∈ flat_map subtree cs <-> exists c, c ∈ cs /\ x ∈ subtree c.
Proof.
  rewrite list_elem_of_In, in_flat_map. split; intros (c & Hc & Hx); exists c;
    by rewrite ?list_elem_of_In in *.
Qed.

(** What lies below a descendant lies below the element. *)
Lemma subtree_trans n : forall m x, m ∈ subtree n -> x ∈ subtree m -> x ∈ subtree n.
Proof.
  induction n as [s | nm attrs cs IH] using node_tree_ind; intros m x Hm Hx.
  - apply list_elem_of_singleton in Hm as ->. exact Hx.
  - rewrite subtree_descendants in Hm. apply elem_of_cons in Hm as [-> | Hm]; [exact Hx |].
    rewrite subtree_descendants. apply elem_of_cons. right.
    cbn [descendants] in Hm |- *. apply elem_of_flat_map_subtree in Hm as (c & Hc & Hm).
    apply elem_of_flat_map_subtree. exists c. split; [exact Hc |].
    rewrite Forall_forall in IH. by apply (IH c Hc m x).
Qed.

Lemma descendants_trans n m x :
  m ∈ descendants n -> x ∈ descendants m -> x ∈ descendants n.
Proof.
  intros Hm Hx. destruct n as [s | nm attrs cs]; [by apply elem_of_nil in Hm |].
  cbn [descendants] in Hm |- *.
  apply elem_of_flat_map_subtree in Hm as (c & Hc & Hm).
  apply elem_of_flat_map_subtree. exists c. split; [exact Hc |].
  apply (subtree_trans c m x Hm). rewrite subtree_descendants.
  by apply list_elem_of_further.
Qed.

Lemma select_matches_decompose s sel n :
  select_matches s (decompose_all sel n) = select_matches s n.
Proof. destruct n; reflexivity. Qed.

Lemma decompose_children sel (cs : list node) :
  (fix go (l : list node) : list node :=
     match l with
     | [] => []
     | c :: l' => if select_matches sel c then go l' else decompose_all sel c :: go l'
     end) cs
  = map (decompose_all sel) (List.filter (fun c => negb (select_matches sel c)) cs).
Proof.
  induction cs as [| c cs IH]; [reflexivity |]. simpl.
  destruct (select_matches sel c); simpl; by rewrite IH.
Qed.

Lemma decompose_all_tag sel nm attrs cs :
  decompose_all sel (Tag nm attrs cs)
  = Tag nm attrs
      (map (decompose_all sel) (List.filter (fun c => negb (select_matches sel c)) cs)).
Proof. cbn [decompose_all]. by rewrite decompose_children. Qed.

(** Every element left by a removal comes from an element that was there
    and did not match. *)
Lemma descendants_decompose sel n : forall x,
  x ∈ descendants (decompose_all sel n) ->
  exists m, m ∈ descendants n /\ x = decompose_all sel m /\ select_matches sel m = false.
Proof.
  induction n as [s | nm attrs cs IH] using node_tree_ind; intros x Hx.
  - by apply elem_of_nil in Hx.
  - rewrite decompose_all_tag in Hx. cbn [descendants] in Hx |- *.
    apply elem_of_flat_map_subtree in Hx as (c' & Hc' & Hx).
    apply list_elem_of_fmap in Hc' as (c & -> & Hc).
    apply list_elem_of_In, List.filter_In in Hc as [Hc Hsel].
    apply list_elem_of_In in Hc. apply negb_true_iff in Hsel.
    rewrite subtree_descendants in Hx. apply elem_of_cons in Hx as [-> | Hx].
    + exists c. split; [| by split]. apply elem_of_flat_map_subtree. exists c.
      split; [exact Hc |]. rewrite subtree_descendants. apply list_elem_of_here.
    + rewrite Forall_forall in IH. destruct (IH c Hc x Hx) as (m & Hm & -> & Hms).
      exists m. split; [| by split]. apply elem_of_flat_map_subtree. exists c.
      split; [exact Hc |]. rewrite subtree_descendants. by apply list_elem_of_further.
Qed.

Lemma remove_selectors_clean sels : forall soup done,
  (forall s x, s ∈ done -> x ∈ descendants soup -> select_matches s x = false) ->
  forall s x,
    s ∈ done ++ sels ->
    x ∈ descendants (fold_left (fun n sel => decompose_all sel n) sels soup) ->
    select_matches s x = false.
Proof.
  induction sels as [| sel sels IH]; intros soup done Hdone s x Hs Hx.
  - rewrite app_nil_r in Hs. by apply (Hdone s x).
  - cbn [fold_left] in Hx.
    apply (IH (decompose_all sel soup) (done ++ [sel])); [| by rewrite <- app_assoc | exact Hx].
    intros s' x' Hs' Hx'.
    destruct (descendants_decompose sel soup x' Hx') as (m & Hm & -> & Hsel).
    rewrite select_matches_decompose.
    apply elem_of_app in Hs' as [Hs' | Hs']; [by apply (Hdone s' m) |].
    apply list_elem_of_singleton in Hs' as ->. exact Hsel.
Qed.

Lemma remove_unwanted_clean soup s x :
  s ∈ unwanted_selectors -> x ∈ descendants (remove_unwanted soup) ->
  select_matches s x = false.
Proof.
  intros Hs Hx. apply (remove_selectors_clean unwanted_selectors soup [] ); try assumption.
  intros s' x' Hs'. by apply elem_of_nil in Hs'.
Qed.

Lemma first_element_member p soup m :
  first_element p soup = Some m -> m ∈ descendants soup.
Proof.
  unfold first_element. intros H.
  assert (Hin : In m (List.filter p (descendants soup))).
  { destruct (List.filter p (descendants soup)); [discriminate |].
    injection H as ->. by left. }
  apply List.filter_In in Hin as [Hin _]. by apply list_elem_of_In.
Qed.

Lemma first_match_member cands soup m :
  first_match cands soup = Some m -> m ∈ descendants soup.
Proof.
  induction cands as [| p ps IH]; [discriminate |]. simpl.
  destruct (first_element p soup) eqn:Hp; [| exact IH].
  intros [= <-]. by apply (first_element_member p).
Qed.

(** The region is the cleaned document or an element of it. *)
Lemma cleaned_region_member BeautifulSoup html :
  cleaned_region BeautifulSoup html = remove_unwanted (BeautifulSoup html)
  \/ cleaned_region BeautifulSoup html ∈ descendants (remove_unwanted (BeautifulSoup html)).
Proof.
  unfold cleaned_region. rewrite main_content_first_match.
  destruct (first_match _ _) as [m |] eqn:Hm.
  - right. by apply (first_match_member content_candidates).
  - unfold body. rewrite find_first_element.
    destruct (first_element _ _) as [b |] eqn:Hb; [right | by left].
    by apply (first_element_member (find_matches (py "body") [])).
Qed.

(** X19.  The region [_clean_html] returns holds no unwanted element:
    no [nav], [footer], [header], [aside], [script], [style], [iframe] or
    [noscript], and no element marked as an advertisement, a navigation, a
    banner or complementary.  This holds of every node of the region at
    any depth, the region itself included unless it is the whole
    document. *)
Theorem clean_html_region_has_no_unwanted
    (BeautifulSoup : str -> node) (html : str) (sel : selector) (x : node) :
  sel ∈ unwanted_selectors ->
  x ∈ subtree (cleaned_region BeautifulSoup html) ->
  x = remove_unwanted (BeautifulSoup html) \/ select_matches sel x = false.
Proof.
  intros Hs Hx. rewrite subtree_descendants in Hx.
  destruct (cleaned_region_member BeautifulSoup html) as [Heq | Hin].
  - rewrite Heq in Hx. apply elem_of_cons in Hx as [-> | Hx]; [by left | right].
    by apply (remove_unwanted_clean (BeautifulSoup html)).
  - right. apply (remove_unwanted_clean (BeautifulSoup html) sel x Hs).
    apply elem_of_cons in Hx as [-> | Hx]; [exact Hin |].
    by apply (descendants_trans _ _ x Hin).
Qed.

Lemma decompose_all_fixed sel n :
  (forall x, x ∈ descendants n -> select_matches sel x = false) ->
  decompose_all sel n = n.
Proof.
  induction n as [s | nm attrs cs IH] using node_tree_ind; intros Hc; [reflexivity |].
  rewrite decompose_all_tag. f_equal.
  cbn [descendants] in Hc.
  induction cs as [| c cs IHcs]; [reflexivity |].
  inversion IH as [| ? ? Hhead Htail]; subst.
  assert (Hcm : select_matches sel c = false).
  { apply Hc. apply elem_of_flat_map_subtree. exists c.
    split; [apply list_elem_of_here |]. rewrite subtree_descendants. apply list_elem_of_here. }
  cbn [List.filter]. rewrite Hcm. cbn [negb map]. f_equal.
  - apply Hhead. intros x Hx. apply Hc. apply elem_of_flat_map_subtree. exists c.
    split; [apply list_elem_of_here |]. rewrite subtree_descendants.
    by apply list_elem_of_further.
  - apply IHcs; [exact Htail |]. intros x Hx. apply Hc.
    apply elem_of_flat_map_subtree in Hx as (c' & Hc' & Hx).
    apply elem_of_flat_map_subtree. exists c'. split; [by apply list_elem_of_further | exact Hx].
Qed.

Lemma remove_selectors_fixed sels : forall soup,
  (forall s x, s ∈ sels -> x ∈ descendants soup -> select_matches s x = false) ->
  fold_left (fun n sel => decompose_all sel n) sels soup = soup.
Proof.
  induction sels as [| sel sels IH]; intros soup Hc; [reflexivity |].
  cbn [fold_left]. rewrite decompose_all_fixed.
  - apply IH. intros s x Hs. apply Hc. by apply list_elem_of_further.
  - intros x. apply Hc. apply list_elem_of_here.
Qed.

(** X20.  Removing the unwanted elements is idempotent: a document that
    went through the loop of [_clean_html] once comes out of it
    unchanged. *)
Theorem remove_unwanted_idempotent (soup : node) :
  remove_unwanted (remove_unwanted soup) = remove_unwanted soup.
Proof.
  unfold remove_unwanted at 1. apply remove_selectors_fixed.
  intros s x. apply remove_unwanted_clean.
Qed.

(** ** The output directory *)

Lemma make_output_dir_cases w :
  make_output_dir w
  = if bool_decide (cwd (disk w) ++ [py "output"] ∈ dirs (disk w)) then (Ok tt, w)
    else if bool_decide (is_Some (files (disk w) !! (cwd (disk w) ++ [py "output"])))
         then (Raise (OSError (py "FileExistsError")), w)
         else (Ok tt,
               {| events := events w;
                  disk := {| cwd := cwd (disk w);
                             dirs := {[ cwd (disk w) ++ [py "output"] ]} ∪ dirs (disk w);
                             files := files (disk w) |} |}).
Proof.
  unfold make_output_dir, mkdir_exist_ok.
  change (parse_path OUTPUT_DIR) with {| anchored := false; parts := [py "output"] |}.
  change (split_last (parts {| anchored := false; parts := [py "output"] |}))
    with (Some (@nil str, py "output")).
  cbn [anchored walk]. rewrite (bool_decide_false (py "output" = py "..")) by discriminate.
  reflexivity.
Qed.


(** X22.  After [main] has prepared the output directory, a title without
    a slash is saved inside it whenever the operating system refuses
    nothing and no directory has the name of the file. *)
Theorem save_markdown_after_setup
    (c : conditions) (t content : str) (w w0 : world) :
  make_output_dir w = (Ok tt, w0) ->
  plain t ->
  (cwd (disk w) ++ [py "output"]) ++ [file_name t] ∉ dirs (disk w) ->
  open_fault c = None ->
  write_fault c = None ->
  exists w',
    _save_markdown c t content w0 = (Ok tt, w')
    /\ files (disk w') !! ((cwd (disk w) ++ [py "output"]) ++ [file_name t])
       = Some content
    /\ inside_root (disk w0) ((cwd (disk w) ++ [py "output"]) ++ [file_name t]) = true.
Proof.
  intros Hm Ht Hfree Ho Hw. rewrite make_output_dir_cases in Hm.
  assert (Hdisk : cwd (disk w0) = cwd (disk w)
                  /\ cwd (disk w) ++ [py "output"] ∈ dirs (disk w0)
                  /\ (cwd (disk w) ++ [py "output"]) ++ [file_name t] ∉ dirs (disk w0)).
  { case_bool_decide as Hd.
    - injection Hm as <-. auto.
    - case_bool_decide; [discriminate |]. injection Hm as <-. cbn [disk cwd dirs].
      split; [reflexivity |].
      split; [apply elem_of_union_l, elem_of_singleton; reflexivity |].
      intros Hin. apply elem_of_union in Hin as [Hin | Hin]; [| by apply Hfree].
      apply elem_of_singleton in Hin. apply (f_equal length) in Hin.
      rewrite !length_app in Hin. simpl in Hin. lia. }
  destruct Hdisk as (Hc & Hroot & Hfree0).
  unfold _save_markdown, bind, aiofiles_open, file_write.
  rewrite Ho, (resolve_plain _ t Ht), Hw, Hc.
  rewrite bool_decide_true by exact Hroot.
  rewrite bool_decide_false by exact Hfree0.
  eexists. split; [reflexivity |]. split; [apply lookup_insert_eq |].
  unfold inside_root. rewrite (output_root_exists (disk w0)) by (by rewrite Hc).
  rewrite Hc. apply bool_decide_true. by apply prefix_app_r.
Qed.

(** ** The further facts at concrete inputs *)

Lemma extract_url_run_shape_witness :
  1 <= MAX_RETRIES
  /\ exists w' evs j b,
       extract_url flat_parser flat_str_of identity_md MAX_RETRIES recovering
         (py "https://example.org/") (py "page") example_world = (py_bool b, w')
       /\ events w' = events example_world ++ evs
       /\ schedule evs = failed_rounds 0 j ++ [Attempt b]
       /\ Z.of_nat j < MAX_RETRIES
       /\ (b = false -> Z.of_nat j = MAX_RETRIES - 1).
Proof.
  assert (H1 : 1 <= MAX_RETRIES) by (unfold MAX_RETRIES; lia).
  split; [exact H1 |].
  exact (extract_url_run_shape flat_parser flat_str_of identity_md MAX_RETRIES
           recovering (py "https://example.org/") (py "page") example_world H1).
Defined.

Lemma extract_url_bounded_witness :
  1 <= MAX_RETRIES
  /\ exists evs,
       events (snd (extract_url flat_parser flat_str_of identity_md MAX_RETRIES
                      (fun _ => offline) (py "https://example.org/") (py "page")
                      example_world))
       = events example_world ++ evs
       /\ 1 <= attempts_made evs <= MAX_RETRIES
       /\ total_seconds (backoff_sleeps evs) = 2 ^ (attempts_made evs - 1) - 1
       /\ total_seconds (backoff_sleeps evs) < 2 ^ (MAX_RETRIES - 1).
Proof.
  assert (H1 : 1 <= MAX_RETRIES) by (unfold MAX_RETRIES; lia).
  split; [exact H1 |].
  exact (extract_url_bounded flat_parser flat_str_of identity_md MAX_RETRIES
           (fun _ => offline) (py "https://example.org/") (py "page") example_world H1).
Defined.

Lemma extract_url_true_means_written_witness :
  extract_url flat_parser flat_str_of identity_md MAX_RETRIES recovering
    (py "https://example.org/") (py "page") example_world
  = (PyTrue,
     snd (extract_url flat_parser flat_str_of identity_md MAX_RETRIES recovering
            (py "https://example.org/") (py "page") example_world))
  /\ exists k html target,
       0 <= k < MAX_RETRIES
       /\ page_source (browser (recovering k) (py "https://example.org/")) = Ok html
       /\ html <> []
       /\ resolve (disk example_world) (output_path (py "page")) = Ok target
       /\ files (disk (snd (extract_url flat_parser flat_str_of identity_md MAX_RETRIES
                              recovering (py "https://example.org/") (py "page")
                              example_world))) !! target
          = Some (page_markdown flat_parser flat_str_of identity_md html).
Proof.
  assert (H1 : extract_url flat_parser flat_str_of identity_md MAX_RETRIES recovering
                 (py "https://example.org/") (py "page") example_world
               = (PyTrue,
                  snd (extract_url flat_parser flat_str_of identity_md MAX_RETRIES
                         recovering (py "https://example.org/") (py "page")
                         example_world)))
    by (vm_compute; reflexivity).
  split; [exact H1 |].
  exact (extract_url_true_means_written flat_parser flat_str_of identity_md
           MAX_RETRIES recovering (py "https://example.org/") (py "page")
           example_world _ H1).
Defined.


Lemma plain_page : plain (py "page").
Proof. unfold plain. refine (bool_decide_unpack _ _). vm_compute. exact I. Defined.

Lemma plain_notes : plain (py "notes").
Proof. unfold plain. refine (bool_decide_unpack _ _). vm_compute. exact I. Defined.

Lemma example_root_exists :
  cwd (disk example_world) ++ [py "output"] ∈ dirs (disk example_world).
Proof. refine (bool_decide_unpack _ _). vm_compute. exact I. Defined.

Lemma example_page_free :
  (cwd (disk example_world) ++ [py "output"]) ++ [file_name (py "page")]
  ∉ dirs (disk example_world).
Proof. refine (bool_decide_unpack _ _). vm_compute. exact I. Defined.

Lemma save_markdown_plain_title_stays_inside_witness :
  plain (py "page")
  /\ cwd (disk example_world) ++ [py "output"] ∈ dirs (disk example_world)
  /\ ((cwd (disk example_world) ++ [py "output"]) ++ [file_name (py "page")]
      ∉ dirs (disk example_world))
  /\ open_fault calm = None
  /\ write_fault calm = None
  /\ exists w',
       _save_markdown calm (py "page") (py "text") example_world = (Ok tt, w')
       /\ files (disk w')
            !! ((cwd (disk example_world) ++ [py "output"]) ++ [file_name (py "page")])
          = Some (py "text")
       /\ inside_root (disk example_world)
            ((cwd (disk example_world) ++ [py "output"]) ++ [file_name (py "page")])
          = true.
Proof.
  split; [exact plain_page |]. split; [exact example_root_exists |].
  split; [exact example_page_free |]. split; [reflexivity |]. split; [reflexivity |].
  exact (save_markdown_plain_title_stays_inside calm (py "page") (py "text")
           example_world plain_page example_root_exists example_page_free
           eq_refl eq_refl).
Defined.

Lemma save_markdown_titles_do_not_collide_witness :
  plain (py "page") /\ plain (py "notes") /\ py "page" <> py "notes"
  /\ files (disk (snd (_save_markdown calm (py "notes") (py "text") example_world)))
       !! ((cwd (disk example_world) ++ [py "output"]) ++ [file_name (py "page")])
     = files (disk example_world)
         !! ((cwd (disk example_world) ++ [py "output"]) ++ [file_name (py "page")]).
Proof.
  assert (Hne : py "page" <> py "notes") by discriminate.
  split; [exact plain_page |]. split; [exact plain_notes |]. split; [exact Hne |].
  exact (save_markdown_titles_do_not_collide calm (py "page") (py "notes") (py "text")
           example_world plain_page plain_notes Hne).
Defined.

Lemma save_markdown_overwrites_witness :
  _save_markdown calm (py "page") (py "first") example_world
  = (Ok tt, snd (_save_markdown calm (py "page") (py "first") example_world))
  /\ _save_markdown calm (py "page") (py "second")
       (snd (_save_markdown calm (py "page") (py "first") example_world))
     = (Ok tt,
        snd (_save_markdown calm (py "page") (py "second")
               (snd (_save_markdown calm (py "page") (py "first") example_world))))
  /\ exists target,
       resolve (disk example_world) (output_path (py "page")) = Ok target
       /\ files (disk (snd (_save_markdown calm (py "page") (py "second")
                              (snd (_save_markdown calm (py "page") (py "first")
                                      example_world))))) !! target
          = Some (py "second")
       /\ disk (snd (_save_markdown calm (py "page") (py "second")
                       (snd (_save_markdown calm (py "page") (py "first")
                               example_world))))
          = disk (snd (_save_markdown calm (py "page") (py "second") example_world)).
Proof.
  assert (H1 : _save_markdown calm (py "page") (py "first") example_world
               = (Ok tt, snd (_save_markdown calm (py "page") (py "first") example_world)))
    by (vm_compute; reflexivity).
  assert (H2 : _save_markdown calm (py "page") (py "second")
                 (snd (_save_markdown calm (py "page") (py "first") example_world))
               = (Ok tt,
                  snd (_save_markdown calm (py "page") (py "second")
                         (snd (_save_markdown calm (py "page") (py "first")
                                 example_world)))))
    by (vm_compute; reflexivity).
  split; [exact H1 |]. split; [exact H2 |].
  exact (save_markdown_overwrites calm calm (py "page") (py "first") (py "second")
           example_world _ _ H1 H2).
Defined.

Lemma save_markdown_file_has_extension_witness :
  resolve example_disk (output_path (py "../page")) = Ok [py "home"; py "page.md"]
  /\ exists d stem,
       [py "home"; py "page.md"] = d ++ [stem ++ py ".md"]
       /\ (slash ∉ stem)
       /\ (py "../page" = stem \/ exists pre, py "../page" = pre ++ slash :: stem).
Proof.
  assert (H1 : resolve example_disk (output_path (py "../page"))
               = Ok [py "home"; py "page.md"]) by (vm_compute; reflexivity).
  split; [exact H1 |].
  exact (save_markdown_file_has_extension example_disk (py "../page")
           [py "home"; py "page.md"] H1).
Defined.

Lemma main_without_retries_reports_all_failed_witness :
  0 <= 0
  /\ exists r w',
       main (pipeline_outcome flat_parser flat_str_of identity_md 0
               (fun _ _ => calm) (fun _ => example_world))
         (fun i => i) targets example_world = (Ok r, w')
       /\ Forall (fun v => v = PyNone) (results r)
       /\ success_count r = 0
       /\ failure_count r = len targets.
Proof.
  assert (H1 : 0 <= 0) by lia.
  split; [exact H1 |].
  exact (main_without_retries_reports_all_failed flat_parser flat_str_of identity_md 0
           (fun _ _ => calm) (fun _ => example_world) (fun i => i) targets
           example_world H1).
Defined.

Lemma clean_html_region_has_no_unwanted_witness :
  ByType (py "script") ∈ unwanted_selectors
  /\ NavigableString (py "article text")
     ∈ subtree (cleaned_region (fun _ => sample_page) (py "<html>"))
  /\ (NavigableString (py "article text") = remove_unwanted ((fun _ => sample_page) (py "<html>"))
      \/ select_matches (ByType (py "script")) (NavigableString (py "article text")) = false).
Proof.
  assert (H1 : ByType (py "script") ∈ unwanted_selectors).
  { unfold unwanted_selectors. do 4 apply list_elem_of_further. apply list_elem_of_here. }
  assert (H2 : NavigableString (py "article text")
               ∈ subtree (cleaned_region (fun _ => sample_page) (py "<html>"))).
  { vm_compute. apply list_elem_of_further. apply list_elem_of_here. }
  split; [exact H1 |]. split; [exact H2 |].
  exact (clean_html_region_has_no_unwanted (fun _ => sample_page) (py "<html>")
           (ByType (py "script")) (NavigableString (py "article text")) H1 H2).
Defined.


Lemma save_markdown_after_setup_witness :
  make_output_dir example_world = (Ok tt, example_world)
  /\ plain (py "page")
  /\ ((cwd (disk example_world) ++ [py "output"]) ++ [file_name (py "page")]
      ∉ dirs (disk example_world))
  /\ open_fault calm = None
  /\ write_fault calm = None
  /\ exists w',
       _save_markdown calm (py "page") (py "text") example_world = (Ok tt, w')
       /\ files (disk w')
            !! ((cwd (disk example_world) ++ [py "output"]) ++ [file_name (py "page")])
          = Some (py "text")
       /\ inside_root (disk example_world)
            ((cwd (disk example_world) ++ [py "output"]) ++ [file_name (py "page")])
          = true.
Proof.
  assert (H1 : make_output_dir example_world = (Ok tt, example_world))
    by (vm_compute; reflexivity).
  split; [exact H1 |]. split; [exact plain_page |].
  split; [exact example_page_free |]. split; [reflexivity |]. split; [reflexivity |].
  exact (save_markdown_after_setup calm (py "page") (py "text") example_world
           example_world H1 plain_page example_page_free eq_refl eq_refl).
Defined.
